(** * PLIA shared library: ACL resolution and batched membership queries

    A shallow embedding of
      - [plia_shared/core/security.py]   (class [ACLService]) and
      - [plia_shared/database/firestore.py] (class [FirestoreService]),
    together with the properties of the two that the specification states.

    Conventions.
      - A Python [str] is a [string]; each character stands for one code
        point below 256.
      - A Firestore document ([doc.to_dict()]) is a [gmap string pyval].
      - A coroutine is a computation in the monad [M]: it returns the list
        of store round trips it made and either its value or the exception
        it raised. *)

From Stdlib Require Import ZArith String Ascii List Lia Permutation DecimalString.
From stdpp Require Import base option list gmap strings.

Local Open Scope string_scope.
Local Open Scope list_scope.

(* ===================================================================== *)
(** ** Python values *)
(* ===================================================================== *)

Module Py.

(** Scalars that occur as field values and as elements of collections. *)
Inductive atom : Type :=
| ANone
| ABool (b : bool)
| AInt (z : Z)
| AStr (s : string).

(** Field values: a scalar, or a flat [list], [tuple] or [set] of scalars.
    The elements of a collection are listed in iteration order. *)
Inductive pyval : Type :=
| PAtom (a : atom)
| PList (xs : list atom)
| PTuple (xs : list atom)
| PSet (xs : list atom).

Definition PNone : pyval := PAtom ANone.
Definition PStr (s : string) : pyval := PAtom (AStr s).

(** [str.isspace] on one character (code points below 256):
    TAB, LF, VT, FF, CR, FS, GS, RS, US, SPACE, NEL and NBSP. *)
Definition isspace (c : ascii) : bool :=
  let n := nat_of_ascii c in
  (((9 <=? n) && (n <=? 13)) || ((28 <=? n) && (n <=? 32))
   || (n =? 133) || (n =? 160))%nat.

Fixpoint lstrip_chars (cs : list ascii) : list ascii :=
  match cs with
  | [] => []
  | c :: rest => if isspace c then lstrip_chars rest else cs
  end.

Definition rstrip_chars (cs : list ascii) : list ascii :=
  rev (lstrip_chars (rev cs)).

(** [s.strip()] *)
Definition strip (s : string) : string :=
  string_of_list_ascii (rstrip_chars (lstrip_chars (list_ascii_of_string s))).

(** [bool(s)] for a [str]: non-empty. *)
Definition str_truthy (s : string) : bool :=
  match s with
  | EmptyString => false
  | String _ _ => true
  end.

(** [bool(x)] *)
Definition truthy (a : atom) : bool :=
  match a with
  | ANone => false
  | ABool b => b
  | AInt z => negb (z =? 0)%Z
  | AStr s => str_truthy s
  end.

(** [str(x)] *)
Definition py_str (a : atom) : string :=
  match a with
  | ANone => "None"
  | ABool true => "True"
  | ABool false => "False"
  | AInt z => NilZero.string_of_int (Z.to_int z)
  | AStr s => s
  end.

(** The integer a [bool] or [int] stands for in arithmetic and comparison. *)
Definition as_int (a : atom) : option Z :=
  match a with
  | ABool b => Some (if b then 1 else 0)%Z
  | AInt z => Some z
  | _ => None
  end.

(** [x == y]: [bool] is a subclass of [int], so [True == 1]. *)
Definition py_eq (x y : atom) : bool :=
  match x, y with
  | ANone, ANone => true
  | AStr s, AStr t => String.eqb s t
  | _, _ =>
      match as_int x, as_int y with
      | Some m, Some n => (m =? n)%Z
      | _, _ => false
      end
  end.

#[global] Instance atom_eq_dec : EqDecision atom.
Proof. solve_decision. Defined.

(** [x in l] for a list [l] *)
Definition py_in (x : atom) (l : list atom) : bool :=
  existsb (py_eq x) l.

(** No two elements of [l] are equal. *)
Fixpoint py_distinct (l : list atom) : bool :=
  match l with
  | [] => true
  | x :: rest => negb (py_in x rest) && py_distinct rest
  end.

(** The elements a [set] keeps when built from an iterable: the first of
    each class of equal elements. *)
Fixpoint dedupe (l : list atom) : list atom :=
  match l with
  | [] => []
  | x :: rest =>
      let kept := dedupe rest in
      x :: List.filter (fun y => negb (py_eq x y)) kept
  end.

End Py.

Import Py.

(** A Firestore document as returned by [doc.to_dict()]. *)
Abbreviation doc := (gmap string pyval).

(* ===================================================================== *)
(** ** Exceptions *)
(* ===================================================================== *)

Module Errors.

(** The exception classes the two services can meet: Python's own, those
    of [google.api_core.exceptions], and those of
    [plia_shared/core/errors.py]. *)
Inductive exn_class : Type :=
| Exception
| RuntimeError
| TypeError
| GoogleAPIError
| GoogleAPICallError
| ClientError
| ServerError
| BadRequest
| InvalidArgument
| Forbidden
| PermissionDenied
| NotFound
| TooManyRequests
| ResourceExhausted
| GatewayTimeout
| DeadlineExceeded
| HTTPException
| PliaAPIException
| NotFoundException
| ProfileNotFoundException.

(** The direct base class, [None] for the root [Exception]. *)
Definition base (c : exn_class) : option exn_class :=
  match c with
  | Exception => None
  | RuntimeError | TypeError | GoogleAPIError | HTTPException => Some Exception
  | GoogleAPICallError => Some GoogleAPIError
  | ClientError | ServerError => Some GoogleAPICallError
  | BadRequest | Forbidden | NotFound | TooManyRequests => Some ClientError
  | InvalidArgument => Some BadRequest
  | PermissionDenied => Some Forbidden
  | ResourceExhausted => Some TooManyRequests
  | GatewayTimeout => Some ServerError
  | DeadlineExceeded => Some GatewayTimeout
  | PliaAPIException => Some HTTPException
  | NotFoundException => Some PliaAPIException
  | ProfileNotFoundException => Some NotFoundException
  end.

Definition exn_class_eqb (c d : exn_class) : bool :=
  match c, d with
  | Exception, Exception | RuntimeError, RuntimeError | TypeError, TypeError
  | GoogleAPIError, GoogleAPIError | GoogleAPICallError, GoogleAPICallError
  | ClientError, ClientError | ServerError, ServerError
  | BadRequest, BadRequest | InvalidArgument, InvalidArgument
  | Forbidden, Forbidden | PermissionDenied, PermissionDenied
  | NotFound, NotFound | TooManyRequests, TooManyRequests
  | ResourceExhausted, ResourceExhausted | GatewayTimeout, GatewayTimeout
  | DeadlineExceeded, DeadlineExceeded | HTTPException, HTTPException
  | PliaAPIException, PliaAPIException
  | NotFoundException, NotFoundException
  | ProfileNotFoundException, ProfileNotFoundException => true
  | _, _ => false
  end.

(** [issubclass(c, d)]: walk up the chain of bases; no chain is longer than
    the six steps allowed here. *)
Fixpoint issubclass_upto (depth : nat) (c d : exn_class) : bool :=
  exn_class_eqb c d ||
  match depth with
  | O => false
  | S depth' =>
      match base c with
      | Some b => issubclass_upto depth' b d
      | None => false
      end
  end.

Definition issubclass : exn_class -> exn_class -> bool := issubclass_upto 6.

(** A raised exception: its class and its message. *)
Record exn : Type := Exn { exn_cls : exn_class; exn_detail : string }.

(** [isinstance(e, c)] *)
Definition isinstance (e : exn) (c : exn_class) : bool :=
  issubclass (exn_cls e) c.

(** [ProfileNotFoundException(profile_uuid)], through
    [NotFoundException.__init__("Profile", profile_uuid)]. *)
Definition profile_not_found (profile_uuid : string) : exn :=
  Exn ProfileNotFoundException
      ("Profile '" ++ profile_uuid ++ "' no encontrado").

(** The [RuntimeError] of the [client] property. *)
Definition client_not_initialized : exn :=
  Exn RuntimeError
      "Firestore client not initialized. Call await firestore.init() on startup.".

End Errors.

Import Errors.

(* ===================================================================== *)
(** ** Coroutines: store round trips and exceptions *)
(* ===================================================================== *)

(** One round trip to the store. *)
Inductive event : Type :=
| PointRead (collection doc_id : string)
| Scan (collection field : string) (chunk : list atom)
       (order_by : option string).

(** A computation: the round trips it made, and its value or the exception
    it raised. *)
Definition M (A : Type) : Type := (list event * (exn + A))%type.

Definition ret {A} (a : A) : M A := ([], inr a).
Definition raise {A} (e : exn) : M A := ([], inl e).
Definition bind {A B} (m : M A) (k : A -> M B) : M B :=
  match m with
  | (t, inl e) => (t, inl e)
  | (t, inr a) => let '(t', r) := k a in (t ++ t', r)
  end.
Definition lift_result {A} (r : exn + A) : M A := ([], r).

Notation "'do' x <- m ; k" := (bind m (fun x => k))
  (at level 10, x name, m at level 100, k at level 200).

Definition trace {A} (m : M A) : list event := fst m.
Definition result {A} (m : M A) : exn + A := snd m.

(* ===================================================================== *)
(** ** [plia_shared/database/firestore.py] *)
(* ===================================================================== *)

Module Firestore.

(** The store behind [google.cloud.firestore.AsyncClient], as the service
    observes it.
      - [doc_get c i] is the outcome of [await doc_ref.get()] on document
        [i] of collection [c]: [inr (Some d)] when the snapshot exists and
        [to_dict()] is [d], [inr None] when it does not exist, [inl e]
        when the call raises [e].
      - [query_stream c f chunk o i n] is the outcome of consuming
        [query.stream()] for the membership filter [f in chunk] (ordered by
        [o] if given), as issued by attempt number [n] for chunk number
        [i]: the store may answer the same scan differently from one
        attempt to the next. *)
Record AsyncClient : Type := {
  doc_get : string -> string -> exn + option doc;
  query_stream : string -> string -> list atom -> option string ->
                 nat -> nat -> exn + list doc
}.

Record FirestoreService : Type := {
  project_id : string;
  _client : option AsyncClient;
  _is_initialized : bool
}.

(** The [client] property. *)
Definition client (self : FirestoreService) : exn + AsyncClient :=
  match _client self with
  | None => inl client_not_initialized
  | Some c => inr c
  end.

(** [get_document]: a missing document is [None], whether the snapshot
    says so or the call raises [NotFound]; every other exception is logged
    and raised again. *)
Definition get_document (self : FirestoreService)
    (collection doc_id : string) : M (option doc) :=
  match client self with
  | inl e => raise e
  | inr c =>
      match doc_get c collection doc_id with
      | inr snapshot => ([PointRead collection doc_id], inr snapshot)
      | inl e =>
          if isinstance e NotFound
          then ([PointRead collection doc_id], inr None)
          else ([PointRead collection doc_id], inl e)
      end
  end.

(** [range(start, stop, step)] for a positive [step]. *)
Definition py_range (start stop step : nat) : list nat :=
  map (fun k => start + k * step) (seq 0 ((stop - start + (step - 1)) / step)).

(** [l[i:j]] for [0 <= i <= j]. *)
Definition slice {A} (l : list A) (i j : nat) : list A :=
  firstn (j - i) (skipn i l).

(** [[values[i : i + 10] for i in range(0, len(values), 10)]] *)
Definition chunks (values : list atom) : list (list atom) :=
  map (fun i => slice values i (i + 10)) (py_range 0 (length values) 10).

(** [if order_by:] keeps a non-empty field name only. *)
Definition ordering (order_by : option string) : option string :=
  match order_by with
  | Some f => if str_truthy f then Some f else None
  | None => None
  end.

(** What tenacity knows when its loop ends: the number of the last
    attempt and its outcome; [calls] are the scans made on the way. *)
Record retry_state : Type := {
  attempt_number : nat;
  calls : list event;
  outcome : exn + list doc
}.

(** [retry_if_exception_type(types)] on a raised exception. *)
Definition retry_if_exception_type (types : list exn_class) (e : exn) : bool :=
  existsb (isinstance e) types.

(** [stop_after_attempt(max_attempt_number)] *)
Definition stop_after_attempt (max_attempt_number : Z) (n : nat) : bool :=
  (max_attempt_number <=? Z.of_nat n)%Z.

(** The failure that completes first among [results], where task number
    [i] completes at instant [finish i] (the earlier index wins a tie). *)
Fixpoint earliest_failure {A} (finish : nat -> nat) (i : nat)
    (results : list (exn + A)) (best : option (nat * exn))
    : option (nat * exn) :=
  match results with
  | [] => best
  | inr _ :: rest => earliest_failure finish (S i) rest best
  | inl e :: rest =>
      let best' :=
        match best with
        | Some (t, _) =>
            if (t <=? finish i)%nat then best else Some (finish i, e)
        | None => Some (finish i, e)
        end in
      earliest_failure finish (S i) rest best'
  end.

Definition successes {A} (results : list (exn + A)) : list A :=
  flat_map (fun r => match r with inr a => [a] | inl _ => [] end) results.

(** [await asyncio.gather] over the tasks: the first exception to be raised by a
    task is raised; otherwise the values, in the order of the
    arguments. *)
Definition gather {A} (finish : nat -> nat) (results : list (exn + A))
    : exn + list A :=
  match earliest_failure finish 0 results None with
  | Some (_, e) => inl e
  | None => inr (successes results)
  end.

Section query_documents_in.

Variable self : FirestoreService.
Variables (collection field : string) (order_by : option string).
Variable max_retries : Z.

(** The inner [_fetch] of attempt [n] for chunk number [chunk_index]. *)
Definition _fetch (chunk : list atom) (chunk_index n : nat) : M (list doc) :=
  match client self with
  | inl e => raise e
  | inr c =>
      ([Scan collection field chunk (ordering order_by)],
       query_stream c collection field chunk (ordering order_by)
                    chunk_index n)
  end.

(** The retry predicate of the [AsyncRetrying] object. *)
Definition retry : exn -> bool :=
  retry_if_exception_type [ResourceExhausted; DeadlineExceeded; GoogleAPIError].

(** The loop [async for attempt in retryer: with attempt: return await
    _fetch()] from attempt number [n] on. A result is returned; an
    exception the predicate rejects is raised as it is; one it accepts
    is raised as it is ([reraise=True]) once [stop_after_attempt] holds,
    and otherwise leads to the next attempt after the backoff sleep.
    [budget] bounds the attempts still to come and makes the recursion
    structural. *)
Fixpoint retrying (chunk : list atom) (chunk_index : nat)
    (budget n : nat) : retry_state :=
  let '(scans, r) := _fetch chunk chunk_index n in
  match r with
  | inr results =>
      {| attempt_number := n; calls := scans; outcome := inr results |}
  | inl e =>
      if negb (retry e)
      then {| attempt_number := n; calls := scans; outcome := inl e |}
      else if stop_after_attempt max_retries n
      then {| attempt_number := n; calls := scans; outcome := inl e |}
      else
        match budget with
        | O => {| attempt_number := n; calls := scans; outcome := inl e |}
        | S budget' =>
            let later := retrying chunk chunk_index budget' (S n) in
            {| attempt_number := attempt_number later;
               calls := scans ++ calls later;
               outcome := outcome later |}
        end
  end.

(** [fetch_chunk_with_retry(chunk, chunk_index)]. With [reraise=True] the
    retryer never raises [RetryError], so the handler for it is never
    entered. *)
Definition fetch_chunk_with_retry (chunk : list atom) (chunk_index : nat)
    : retry_state :=
  retrying chunk chunk_index (Z.to_nat max_retries) 1.

(** The tasks [fetch_chunk_with_retry(chunk, i) for i, chunk in
    enumerate(chunks)]. *)
Definition tasks (values : list atom) : list retry_state :=
  imap (fun i chunk => fetch_chunk_with_retry chunk i) (chunks values).

(** [query_documents_in]. [finish] is the event loop's schedule: the
    instant at which the task of each chunk completes. The trace lists
    the scans of every task, chunk by chunk (asyncio does not cancel the
    other tasks when one fails). *)
Definition query_documents_in (finish : nat -> nat) (values : list atom)
    : M (list doc) :=
  match values with
  | [] => ([], inr [])
  | _ :: _ =>
      let ts := tasks values in
      (concat (map calls ts),
       match gather finish (map outcome ts) with
       | inl e => inl e
       | inr results => inr (concat results)
       end)
  end.

End query_documents_in.

End Firestore.

Import Firestore.

(* ===================================================================== *)
(** ** [plia_shared/core/security.py] *)
(* ===================================================================== *)

Module ACL.

(** [type(v).__name__] *)
Definition type_name (v : pyval) : string :=
  match v with
  | PAtom ANone => "NoneType"
  | PAtom (ABool _) => "bool"
  | PAtom (AInt _) => "int"
  | PAtom (AStr _) => "str"
  | PList _ => "list"
  | PTuple _ => "tuple"
  | PSet _ => "set"
  end.

(** The double quote character, as a string. *)
Definition dquote : string := String (ascii_of_nat 34) EmptyString.

Definition cannot_concatenate (kind : string) (v : pyval) : exn :=
  Exn TypeError ("can only concatenate " ++ kind ++ " (not " ++ dquote
                 ++ type_name v ++ dquote ++ ") to " ++ kind).

Definition unsupported_operands (a b : pyval) : exn :=
  Exn TypeError ("unsupported operand type(s) for +: '" ++ type_name a
                 ++ "' and '" ++ type_name b ++ "'").

Definition not_iterable (v : pyval) : exn :=
  Exn TypeError ("'" ++ type_name v ++ "' object is not iterable").

(** [a + b] *)
Definition py_add (a b : pyval) : exn + pyval :=
  match a, b with
  | PList xs, PList ys => inr (PList (xs ++ ys))
  | PList _, _ => inl (cannot_concatenate "list" b)
  | PTuple xs, PTuple ys => inr (PTuple (xs ++ ys))
  | PTuple _, _ => inl (cannot_concatenate "tuple" b)
  | PAtom (AStr s), PAtom (AStr t) => inr (PStr (s ++ t))
  | PAtom (AStr _), _ => inl (cannot_concatenate "str" b)
  | PAtom x, PAtom y =>
      match as_int x, as_int y with
      | Some m, Some n => inr (PAtom (AInt (m + n)))
      | _, _ => inl (unsupported_operands a b)
      end
  | _, _ => inl (unsupported_operands a b)
  end.

(** The elements [set(v)] is built from, in iteration order. *)
Definition py_iter (v : pyval) : exn + list atom :=
  match v with
  | PList xs | PTuple xs | PSet xs => inr xs
  | PAtom (AStr s) =>
      inr (map (fun c => AStr (String c EmptyString)) (list_ascii_of_string s))
  | PAtom _ => inl (not_iterable v)
  end.

(** [bool(d)] for the [Optional[dict]] that [get_document] returns. *)
Definition doc_truthy (d : option doc) : bool :=
  match d with
  | None => false
  | Some fields => negb (size fields =? 0)%nat
  end.

(** [d.get(key)] and [d.get(key, default)] *)
Definition dict_get (d : doc) (key : string) : pyval :=
  default PNone (d !! key).
Definition dict_get_default (d : doc) (key : string) (dflt : pyval) : pyval :=
  default dflt (d !! key).

(** The [for item in value] loop of [_first_non_empty_to_str]. *)
Fixpoint first_non_empty_item (items : list atom) : option string :=
  match items with
  | [] => None
  | item :: rest =>
      match item with
      | ANone => first_non_empty_item rest
      | AStr v =>
          let s := strip v in
          if str_truthy s then Some s else first_non_empty_item rest
      | _ =>
          if truthy item
          then let s := strip (py_str item) in
               if str_truthy s then Some s else first_non_empty_item rest
          else first_non_empty_item rest
      end
  end.

(** [_first_non_empty_to_str(value)] *)
Definition _first_non_empty_to_str (value : pyval) : option string :=
  match value with
  | PAtom ANone => None
  | PAtom (AStr v) =>
      let s := strip v in
      if str_truthy s then Some s else None
  | PList items | PTuple items | PSet items => first_non_empty_item items
  | PAtom a =>
      if truthy a
      then let s := strip (py_str a) in
           if str_truthy s then Some s else None
      else None
  end.

(** [bool(org_uuid)] for the [str | None] above. *)
Definition org_uuid_truthy (org_uuid : option string) : bool :=
  match org_uuid with
  | Some s => str_truthy s
  | None => false
  end.

Record ACLService : Type := { firestore : FirestoreService }.

Section service.

Variable self : ACLService.

(** [list(s)] for a set [s] whose distinct elements were inserted in the
    order given: Python fixes no iteration order for a set. *)
Variable set_iter : list atom -> list atom.

(** The schedule of the event loop, see [query_documents_in]. *)
Variable finish : nat -> nat.

(** The organization identifier of a profile: [org_uuid], else [orgs]. *)
Definition org_uuid_of (profile : doc) : option string :=
  let org_uuid := _first_non_empty_to_str (dict_get profile "org_uuid") in
  if negb (org_uuid_truthy org_uuid)
  then _first_non_empty_to_str (dict_get profile "orgs")
  else org_uuid.

(** [org_series_acl]: empty unless the organization is read and found. *)
Definition org_series_acl_of (org_uuid : option string) : M pyval :=
  match org_uuid with
  | Some id =>
      if str_truthy id
      then do org <- get_document (firestore self) "orgs" id;
           match org with
           | Some fields =>
               if doc_truthy org
               then ret (dict_get_default fields "series_acl" (PList []))
               else ret (PList [])
           | None => ret (PList [])
           end
      else ret (PList [])
  | None => ret (PList [])
  end.

(** [list(set(org_series_acl + profile_series_acl))] *)
Definition merge_series_acl (org_series_acl profile_series_acl : pyval)
    : exn + list atom :=
  match py_add org_series_acl profile_series_acl with
  | inl e => inl e
  | inr both =>
      match py_iter both with
      | inl e => inl e
      | inr elements => inr (set_iter (dedupe elements))
      end
  end.

Definition get_profile_with_acl (profile_uuid : string)
    : M (doc * list atom) :=
  do profile <- get_document (firestore self) "profiles" profile_uuid;
  match profile with
  | Some fields =>
      if negb (doc_truthy profile)
      then raise (profile_not_found profile_uuid)
      else
        do org_series_acl <- org_series_acl_of (org_uuid_of fields);
        let profile_series_acl :=
          dict_get_default fields "series_acl" (PList []) in
        do series_acl <-
          lift_result (merge_series_acl org_series_acl profile_series_acl);
        ret (fields, series_acl)
  | None => raise (profile_not_found profile_uuid)
  end.

Definition validate_serie_access (profile_uuid serie_uuid : string)
    : M bool :=
  do acl <- get_profile_with_acl profile_uuid;
  let has_access := py_in (AStr serie_uuid) (snd acl) in
  ret has_access.

Definition get_series_for_profile (profile_uuid : string) : M (list doc) :=
  do acl <- get_profile_with_acl profile_uuid;
  match snd acl with
  | [] => ret []
  | _ :: _ =>
      query_documents_in (firestore self) "series" "serie_uuid"
                         (Some "order") 3 finish (snd acl)
  end.

End service.

End ACL.

Import ACL.

(* ===================================================================== *)
(** ** The specification's reading of the normalization rule *)
(* ===================================================================== *)

(** The trimmed string form of a scalar. *)
Definition trimmed_text (a : atom) : string := strip (py_str a).

(** As the specification words it: an element counts when it is present
    and its trimmed string form is not empty. *)
Definition stringifies_non_empty (a : atom) : bool :=
  match a with
  | ANone => false
  | _ => str_truthy (trimmed_text a)
  end.

(** The rule as the specification words it: the first element that
    stringifies to something non-empty wins. *)
Definition stated_org_identifier (value : pyval) : option string :=
  match value with
  | PAtom a => if stringifies_non_empty a then Some (trimmed_text a) else None
  | PList items | PTuple items | PSet items =>
      trimmed_text <$> List.find stringifies_non_empty items
  end.

(** What the code looks for: an element that is true in Python's sense
    (not [None], [False], [0] or the empty string) and whose trimmed string
    form is not empty. *)
Definition usable (a : atom) : bool :=
  truthy a && str_truthy (trimmed_text a).

(** The rule the code implements: the first usable element wins. *)
Definition first_usable_identifier (value : pyval) : option string :=
  match value with
  | PAtom a => if usable a then Some (trimmed_text a) else None
  | PList items | PTuple items | PSet items =>
      trimmed_text <$> List.find usable items
  end.

(** The number of chunks of width 10 that [n] keys need: [ceil(n / 10)]. *)
Definition chunk_count (n : nat) : nat := (n + 9) / 10.

(* ===================================================================== *)
(** ** Example store: the scenarios of the specification *)
(* ===================================================================== *)

Module Scenario.

(** Profile [p1]: grants [s1], [s2], member of [orgA]. *)
Definition p1 : doc :=
  {[ "series_acl" := PList [AStr "s1"; AStr "s2"]; "org_uuid" := PStr "orgA" ]}.

(** Profile [p2]: an empty organization list, one grant. *)
Definition p2 : doc :=
  {[ "series_acl" := PList [AStr "s5"]; "orgs" := PList [] ]}.

(** Profile [p3]: no usable [org_uuid], so [orgs] decides. *)
Definition p3 : doc :=
  {[ "org_uuid" := PStr "  "; "orgs" := PList [ANone; AStr EmptyString; AStr " orgA "; AStr "orgB"] ]}.

(** Profile [p4]: member of an organization that has no document. *)
Definition p4 : doc :=
  {[ "series_acl" := PList [AStr "s7"]; "org_uuid" := PStr "ghost" ]}.

Definition orgA : doc := {[ "series_acl" := PList [AStr "s2"; AStr "s3"] ]}.

(** A store holding the documents above and an existing profile [p0]
    without any field. Scans answer with one document per key; the scans
    of chunk number 1 fail twice with a quota error before they succeed. *)
Definition store : AsyncClient := {|
  doc_get := fun collection doc_id =>
    if String.eqb collection "profiles" then
      if String.eqb doc_id "p1" then inr (Some p1)
      else if String.eqb doc_id "p2" then inr (Some p2)
      else if String.eqb doc_id "p3" then inr (Some p3)
      else if String.eqb doc_id "p4" then inr (Some p4)
      else if String.eqb doc_id "p0" then inr (Some ∅)
      else inr None
    else if String.eqb collection "orgs" then
      if String.eqb doc_id "orgA" then inr (Some orgA) else inr None
    else inr None;
  query_stream := fun collection field chunk order_by chunk_index n =>
    if ((chunk_index =? 1) && (n <? 3))%nat
    then inl (Exn ResourceExhausted "Quota exceeded.")
    else inr (map (fun key => {[ field := PAtom key ]}) chunk)
|}.

(** A store whose scans are always refused. *)
Definition locked_store : AsyncClient := {|
  doc_get := fun _ _ => inl (Exn PermissionDenied "Missing or insufficient permissions.");
  query_stream := fun _ _ _ _ _ _ =>
    inl (Exn PermissionDenied "Missing or insufficient permissions.")
|}.

(** A store in which every scan for chunk number 1 runs out of quota. *)
Definition starved_store : AsyncClient := {|
  doc_get := fun _ _ => inr None;
  query_stream := fun collection field chunk order_by chunk_index n =>
    if (chunk_index =? 1)%nat
    then inl (Exn ResourceExhausted
                  ("Quota exceeded, attempt " ++ py_str (AInt (Z.of_nat n))))
    else inr (map (fun key => {[ field := PAtom key ]}) chunk)
|}.

Definition service_of (c : AsyncClient) : FirestoreService :=
  {| project_id := "plia-ai"; _client := Some c; _is_initialized := true |}.

(** A service on which [init] was never awaited. *)
Definition cold_service : FirestoreService :=
  {| project_id := "plia-ai"; _client := None; _is_initialized := false |}.

Definition acl : ACLService := {| firestore := service_of store |}.

(** Twenty-five keys [k0 .. k24]. *)
Definition keys25 : list atom :=
  map (fun n => AStr ("k" ++ py_str (AInt (Z.of_nat n)))) (seq 0 25).

(** The documents [store] holds for the keys of each chunk of [keys25]. *)
Definition per_chunk25 : list (list doc) :=
  map (map (fun key => {[ "serie_uuid" := PAtom key ]})) (chunks keys25).

(** A set that iterates in insertion order, and one that iterates in the
    reverse order. *)
Definition insertion_order : list atom -> list atom := fun l => l.
Definition reverse_order : list atom -> list atom := @rev atom.

End Scenario.

(* ===================================================================== *)
(** ** The life cycle of the service ([firestore.py]) *)
(* ===================================================================== *)

Module Lifecycle.

(** [FirestoreService(project_id)] *)
Definition __init__ (project_id : string) : FirestoreService :=
  {| project_id := project_id; _client := None; _is_initialized := false |}.

Section connection.

(** [firestore.AsyncClient(project=p)]: the client the library builds for
    a project. *)
Variable connect : string -> AsyncClient.

(** [await self.init()] *)
Definition init (self : FirestoreService) : FirestoreService :=
  if negb (_is_initialized self)
  then {| project_id := project_id self;
          _client := Some (connect (project_id self));
          _is_initialized := true |}
  else self.

(** [await self.close()] *)
Definition close (self : FirestoreService) : FirestoreService :=
  if _is_initialized self
  then {| project_id := project_id self;
          _client := None;
          _is_initialized := false |}
  else self.

(** A call of one of the two methods, and a sequence of calls on the same
    service, first call first. *)
Inductive call : Type := Init | Close.

Definition apply_call (self : FirestoreService) (c : call) : FirestoreService :=
  match c with
  | Init => init self
  | Close => close self
  end.

Definition run (calls : list call) (self : FirestoreService) : FirestoreService :=
  fold_left apply_call calls self.

(** The module variable [_firestore_service] holds the one service object
    of the process, or [None]; every reference that [get_firestore_service]
    returns is a reference to that object. *)
Definition default_project_id : string := "plia-ai".

(** [await get_firestore_service(project_id)], run on its own under the
    lock: the new value of the module variable and the service returned. *)
Definition get_firestore_service (_firestore_service : option FirestoreService)
    (project_id : string) : option FirestoreService * FirestoreService :=
  match _firestore_service with
  | None =>
      let created := init (__init__ project_id) in
      (Some created, created)
  | Some shared => (Some shared, shared)
  end.

(** Successive calls of [get_firestore_service], one for each of the
    projects given: the module variable in the end and the services
    returned, in order. *)
Fixpoint get_firestore_services (_firestore_service : option FirestoreService)
    (projects : list string)
    : option FirestoreService * list FirestoreService :=
  match projects with
  | [] => (_firestore_service, [])
  | p :: rest =>
      let '(holder, service) := get_firestore_service _firestore_service p in
      let '(holder', services) := get_firestore_services holder rest in
      (holder', service :: services)
  end.

(** A holder of the shared service awaits [close()] on it: the object the
    module variable refers to is the one that changes. *)
Definition close_shared (_firestore_service : option FirestoreService)
    : option FirestoreService :=
  close <$> _firestore_service.

End connection.

(** [_is_initialized] tells whether there is a client. *)
Definition consistent (self : FirestoreService) : Prop :=
  _is_initialized self = true <-> _client self <> None.

End Lifecycle.

(* ===================================================================== *)
(** ** [plia_shared/core/auth.py] *)
(* ===================================================================== *)

Module Auth.

(** An exception of [plia_shared/core/errors.py], as FastAPI renders it. *)
Record api_exception : Type := {
  status_code : nat;
  detail : string;
  headers : list (string * string)
}.

(** [InvalidAPIKeyException()]: an [UnauthorizedException] with its own
    message (the eighth letter of the second word is a-acute, code point
    225). *)
Definition InvalidAPIKeyException : api_exception :=
  {| status_code := 401;
     detail := "API Key inv" ++ String (ascii_of_nat 225) "lida o faltante";
     headers := [("WWW-Authenticate", "Bearer")] |}.

(** [validate_api_key(x_api_key, settings)], where [API_KEY] is
    [settings.API_KEY]. *)
Definition validate_api_key (x_api_key : option string)
    (API_KEY : option string) : api_exception + string :=
  match x_api_key with
  | None => inl InvalidAPIKeyException
  | Some key =>
      if negb (str_truthy key) then inl InvalidAPIKeyException
      else
        let key := strip key in
        if bool_decide (Some key <> API_KEY)
        then inl InvalidAPIKeyException
        else inr key
  end.

End Auth.

(* ===================================================================== *)
(** ** [plia_shared/models/requests.py] *)
(* ===================================================================== *)

Module Requests.

(** What makes the validation of a field fail: a length outside the bounds
    of [Field(min_length=..., max_length=...)], or the [ValueError] of
    the field validator. *)
Inductive field_error : Type :=
| string_too_short
| string_too_long
| ValueError (msg : string).

(** The field validator of [profile_uuid] and of [serie_uuid]; [name] is
    the name of the field (the last word of the message ends in i-acute,
    code point 237, and [o]). *)
Definition validate_uuid (name : string) (v : string) : field_error + string :=
  if negb (str_truthy v) || (String.length (strip v) =? 0)%nat
  then inl (ValueError (name ++ " no puede estar vac"
                        ++ String (ascii_of_nat 237) "o"))
  else inr (strip v).

Definition validate_profile_uuid : string -> field_error + string :=
  validate_uuid "profile_uuid".
Definition validate_serie_uuid : string -> field_error + string :=
  validate_uuid "serie_uuid".

(** A [str] field declared with [Field(..., min_length, max_length)] and a
    field validator: the bounds are checked on the value received, then
    the validator runs on it. *)
Definition constrained_field (min_length max_length : nat)
    (validator : string -> field_error + string) (v : string)
    : field_error + string :=
  if (String.length v <? min_length)%nat then inl string_too_short
  else if (max_length <? String.length v)%nat then inl string_too_long
  else validator v.

(** The field [profile_uuid] of [ProfileUUIDMixin] and the field
    [serie_uuid] of [SerieUUIDMixin]. *)
Definition profile_uuid_field : string -> field_error + string :=
  constrained_field 10 100 validate_profile_uuid.
Definition serie_uuid_field : string -> field_error + string :=
  constrained_field 10 100 validate_serie_uuid.

End Requests.

(** A scan of the store, as opposed to a point read. *)
Definition is_scan (ev : event) : bool :=
  match ev with
  | Scan _ _ _ _ => true
  | PointRead _ _ => false
  end.

(** The keys a round trip asks the store about in a membership filter. *)
Definition scanned_keys (ev : event) : list atom :=
  match ev with
  | Scan _ _ chunk _ => chunk
  | PointRead _ _ => []
  end.

(** A string without white space at either end. *)
Definition trimmed (s : string) : Prop := strip s = s.

(* ===================================================================== *)
(** ** Properties of the normalization rule *)
(* ===================================================================== *)

Section normalization.

Lemma str_truthy_true (s : string) : str_truthy s = true <-> s <> EmptyString.
Proof. destruct s; simpl; split; congruence. Qed.

(** Trimming never turns the empty string into something. *)
Lemma strip_empty : strip EmptyString = EmptyString.
Proof. reflexivity. Qed.

Lemma strip_non_empty (s : string) :
  str_truthy (strip s) = true -> str_truthy s = true.
Proof. destruct s; [rewrite strip_empty|]; auto. Qed.

(** On a string the two tests of the code collapse into one. *)
Lemma usable_str (s : string) : usable (AStr s) = str_truthy (strip s).
Proof.
  unfold usable, trimmed_text. simpl.
  destruct (str_truthy (strip s)) eqn:E.
  - rewrite (strip_non_empty _ E). reflexivity.
  - apply andb_false_r.
Qed.

Lemma first_non_empty_item_find (items : list atom) :
  first_non_empty_item items = trimmed_text <$> List.find usable items.
Proof.
  induction items as [|item rest IH]; [reflexivity|].
  cbn [first_non_empty_item List.find]. rewrite IH.
  set (later := List.find usable rest).
  destruct item as [|b|z|s].
  - reflexivity.
  - unfold usable, trimmed_text. cbn [truthy].
    destruct b; cbn [andb]; [|reflexivity].
    destruct (str_truthy (strip (py_str (ABool true)))); reflexivity.
  - unfold usable, trimmed_text. cbn [truthy].
    destruct (negb (z =? 0)%Z); cbn [andb]; [|reflexivity].
    destruct (str_truthy (strip (py_str (AInt z)))); reflexivity.
  - rewrite usable_str.
    destruct (str_truthy (strip s)); reflexivity.
Qed.

(** The identifier is never the empty string, so [if not org_uuid] asks
    exactly whether there is one. *)
Lemma first_non_empty_item_non_empty (items : list atom) (s : string) :
  first_non_empty_item items = Some s -> str_truthy s = true.
Proof.
  induction items as [|item rest IH]; [discriminate|].
  cbn [first_non_empty_item].
  destruct item as [|b|z|v]; auto.
  - destruct (truthy (ABool b)); auto.
    destruct (str_truthy (strip (py_str (ABool b)))) eqn:E; auto.
    intros [= <-]. exact E.
  - destruct (truthy (AInt z)); auto.
    destruct (str_truthy (strip (py_str (AInt z)))) eqn:E; auto.
    intros [= <-]. exact E.
  - destruct (str_truthy (strip v)) eqn:E; auto.
    intros [= <-]. exact E.
Qed.

Lemma first_non_empty_to_str_non_empty (value : pyval) (s : string) :
  _first_non_empty_to_str value = Some s -> str_truthy s = true.
Proof.
  destruct value as [a|items|items|items];
    try apply first_non_empty_item_non_empty.
  unfold _first_non_empty_to_str. destruct a as [|b|z|v]; [discriminate| | |].
  - destruct (truthy (ABool b)); [|discriminate].
    destruct (str_truthy (strip (py_str (ABool b)))) eqn:E; [|discriminate].
    intros [= <-]. exact E.
  - destruct (truthy (AInt z)); [|discriminate].
    destruct (str_truthy (strip (py_str (AInt z)))) eqn:E; [|discriminate].
    intros [= <-]. exact E.
  - destruct (str_truthy (strip v)) eqn:E; [|discriminate].
    intros [= <-]. exact E.
Qed.

(** In a collection the first usable element decides: what comes before
    it is not usable, what comes after it is not looked at. *)
Lemma first_usable_wins (pre post : list atom) (x : atom) :
  Forall (fun y => usable y = false) pre -> usable x = true ->
  first_non_empty_item (pre ++ x :: post) = Some (trimmed_text x).
Proof.
  intros Hpre Hx. rewrite first_non_empty_item_find.
  induction Hpre as [|y pre Hy _ IH]; cbn [app List.find].
  - rewrite Hx. reflexivity.
  - rewrite Hy. exact IH.
Qed.

Lemma none_usable (items : list atom) :
  Forall (fun y => usable y = false) items ->
  first_non_empty_item items = None.
Proof.
  intros H. rewrite first_non_empty_item_find.
  induction H as [|y items Hy _ IH]; [reflexivity|].
  cbn [List.find]. rewrite Hy. exact IH.
Qed.

End normalization.

(** C4, as the specification states it, fails: in [[0, "orgA"]] the first
    element stringifies to ["0"], which is not empty, so the stated rule
    selects ["0"]; the code tests [if item:] before it stringifies, skips
    the [0] and returns ["orgA"]. *)
Lemma first_non_empty_skips_zero :
  stated_org_identifier (PList [AInt 0; AStr "orgA"]) = Some "0" /\
  _first_non_empty_to_str (PList [AInt 0; AStr "orgA"]) = Some "orgA".
Proof. split; reflexivity. Qed.

(** C4 (amended): [_first_non_empty_to_str] returns, for a single value,
    its trimmed string form when the value is true in Python's sense and
    that form is not empty (so a string gives its trimmed self when that is
    not empty), and no organization otherwise (so for [None] and for the
    empty string); for a collection it returns the trimmed string form of
    the first element, in iteration order, that is true in Python's sense
    and has a non-empty trimmed string form: the elements before it are
    skipped, those after it are ignored, and a collection without such an
    element, the empty one included, gives no organization. *)
Theorem first_non_empty_to_str_first_usable (value : pyval) :
  _first_non_empty_to_str value = first_usable_identifier value.
Proof.
  destruct value as [a|items|items|items];
    try apply first_non_empty_item_find.
  unfold _first_non_empty_to_str, first_usable_identifier.
  destruct a as [|b|z|s].
  - reflexivity.
  - unfold usable, trimmed_text.
    destruct (truthy (ABool b)); cbn [andb]; [|reflexivity].
    destruct (str_truthy (strip (py_str (ABool b)))); reflexivity.
  - unfold usable, trimmed_text.
    destruct (truthy (AInt z)); cbn [andb]; [|reflexivity].
    destruct (str_truthy (strip (py_str (AInt z)))); reflexivity.
  - rewrite usable_str. reflexivity.
Qed.

(* ===================================================================== *)
(** ** Properties of the chunking *)
(* ===================================================================== *)

Section chunking.

Lemma chunk_count_ceiling (n : nat) :
  n <= 10 * chunk_count n < n + 10.
Proof.
  unfold chunk_count.
  pose proof (Nat.div_mod_eq (n + 9) 10) as H.
  pose proof (Nat.mod_upper_bound (n + 9) 10) as Hlt.
  lia.
Qed.

Lemma py_range_chunk_starts (n : nat) :
  py_range 0 n 10 = map (fun k => k * 10) (seq 0 (chunk_count n)).
Proof.
  unfold py_range, chunk_count.
  replace (n - 0 + (10 - 1)) with (n + 9) by lia.
  apply map_ext. intros k. lia.
Qed.

Lemma chunks_unfold (values : list atom) :
  chunks values =
  map (fun k => firstn 10 (skipn (k * 10) values))
      (seq 0 (chunk_count (length values))).
Proof.
  unfold chunks. rewrite py_range_chunk_starts, map_map.
  apply map_ext. intros k. unfold slice. f_equal. lia.
Qed.

Lemma concat_chunk_prefix (values : list atom) (m : nat) :
  concat (map (fun k => firstn 10 (skipn (k * 10) values)) (seq 0 m))
  = firstn (m * 10) values.
Proof.
  induction m as [|m IH]; [reflexivity|].
  rewrite seq_S, map_app, concat_app, IH. simpl.
  rewrite app_nil_r, take_take_drop. f_equal. lia.
Qed.

Lemma concat_chunks (values : list atom) : concat (chunks values) = values.
Proof.
  rewrite chunks_unfold, concat_chunk_prefix.
  apply firstn_all2. pose proof (chunk_count_ceiling (length values)). lia.
Qed.

Lemma length_chunks (values : list atom) :
  length (chunks values) = chunk_count (length values).
Proof. rewrite chunks_unfold, length_map, length_seq. reflexivity. Qed.

Lemma lookup_chunks (values : list atom) (k : nat) (chunk : list atom) :
  chunks values !! k = Some chunk ->
  chunk = firstn 10 (skipn (k * 10) values) /\ k * 10 < length values.
Proof.
  rewrite chunks_unfold, list_lookup_fmap.
  destruct (seq 0 (chunk_count (length values)) !! k) as [j|] eqn:E;
    [|discriminate].
  apply lookup_seq in E as [-> Hk]. simpl. intros [= <-].
  split; [reflexivity|].
  pose proof (chunk_count_ceiling (length values)). lia.
Qed.

Lemma chunk_width (values : list atom) (k : nat) (chunk : list atom) :
  chunks values !! k = Some chunk -> 1 <= length chunk <= 10.
Proof.
  intros H. apply lookup_chunks in H as [-> Hk].
  rewrite length_firstn, length_skipn. lia.
Qed.

(** Every chunk but the last one is full. *)
Lemma chunk_full (values : list atom) (k : nat) (chunk : list atom) :
  chunks values !! k = Some chunk ->
  S k < length (chunks values) -> length chunk = 10.
Proof.
  intros H Hk. apply lookup_chunks in H as [-> _].
  rewrite length_chunks in Hk.
  pose proof (chunk_count_ceiling (length values)).
  rewrite length_firstn, length_skipn. lia.
Qed.

End chunking.

(* ===================================================================== *)
(** ** Properties of the retry loop *)
(* ===================================================================== *)

Section retrying.

Variable self : FirestoreService.
Variables (collection field : string) (order_by : option string).
Variable max_retries : Z.

Local Abbreviation fetch := (_fetch self collection field order_by).
Local Abbreviation loop := (retrying self collection field order_by max_retries).

(** The three listed classes amount to one: [GoogleAPIError] is a base
    of the other two, and of every other error of the store API. *)
Lemma retry_any_api_error (e : exn) :
  retry e = isinstance e GoogleAPIError.
Proof. destruct e as [[] detail]; reflexivity. Qed.

(** An attempt does not depend on the budget of the loop. *)
Lemma retrying_returns (chunk : list atom) (i b n : nat)
    (scans : list event) (results : list doc) :
  fetch chunk i n = (scans, inr results) ->
  loop chunk i b n =
    {| attempt_number := n; calls := scans; outcome := inr results |}.
Proof.
  intros H. destruct b; simpl; rewrite H; reflexivity.
Qed.

Lemma retrying_rejects (chunk : list atom) (i b n : nat)
    (scans : list event) (e : exn) :
  fetch chunk i n = (scans, inl e) -> retry e = false ->
  loop chunk i b n =
    {| attempt_number := n; calls := scans; outcome := inl e |}.
Proof.
  intros H Hr.
  destruct b; simpl; rewrite H, Hr; reflexivity.
Qed.

Lemma retrying_stops (chunk : list atom) (i b n : nat)
    (scans : list event) (e : exn) :
  fetch chunk i n = (scans, inl e) ->
  stop_after_attempt max_retries n = true ->
  loop chunk i b n =
    {| attempt_number := n; calls := scans; outcome := inl e |}.
Proof.
  intros H Hs.
  destruct b; simpl; rewrite H, Hs; destruct (negb (retry e)); reflexivity.
Qed.

Lemma retrying_again (chunk : list atom) (i b n : nat)
    (scans : list event) (e : exn) :
  fetch chunk i n = (scans, inl e) -> retry e = true ->
  stop_after_attempt max_retries n = false ->
  loop chunk i (S b) n =
    {| attempt_number := attempt_number (loop chunk i b (S n));
       calls := scans ++ calls (loop chunk i b (S n));
       outcome := outcome (loop chunk i b (S n)) |}.
Proof.
  intros H Hr Hs. simpl. rewrite H, Hr, Hs. reflexivity.
Qed.

(** The budget given to the loop is never what ends it: once it is
    spent, [stop_after_attempt] holds. *)
Lemma stop_when_budget_spent (n : nat) :
  (max_retries <= Z.of_nat n)%Z -> stop_after_attempt max_retries n = true.
Proof. intros H. unfold stop_after_attempt. apply Z.leb_le. exact H. Qed.

Lemma retrying_budget_enough (chunk : list atom) (i : nat) :
  forall b b' n,
    (max_retries <= Z.of_nat (n + b))%Z ->
    (max_retries <= Z.of_nat (n + b'))%Z ->
    loop chunk i b n = loop chunk i b' n.
Proof.
  induction b as [|b IH]; intros b' n Hb Hb'.
  - destruct (fetch chunk i n) as [scans [e|results]] eqn:F.
    + rewrite (retrying_stops _ _ 0 _ _ _ F), (retrying_stops _ _ b' _ _ _ F);
        try reflexivity; apply stop_when_budget_spent; lia.
    + rewrite (retrying_returns _ _ 0 _ _ _ F), (retrying_returns _ _ b' _ _ _ F).
      reflexivity.
  - destruct (fetch chunk i n) as [scans [e|results]] eqn:F.
    + destruct (retry e) eqn:R.
      * destruct (stop_after_attempt max_retries n) eqn:St.
        -- rewrite (retrying_stops _ _ (S b) _ _ _ F St), (retrying_stops _ _ b' _ _ _ F St).
           reflexivity.
        -- destruct b' as [|b'].
           { unfold stop_after_attempt in St. apply Z.leb_gt in St. lia. }
           rewrite (retrying_again _ _ b _ _ _ F R St), (retrying_again _ _ b' _ _ _ F R St).
           rewrite (IH b' (S n)) by lia. reflexivity.
      * rewrite (retrying_rejects _ _ (S b) _ _ _ F R), (retrying_rejects _ _ b' _ _ _ F R).
        reflexivity.
    + rewrite (retrying_returns _ _ (S b) _ _ _ F), (retrying_returns _ _ b' _ _ _ F).
      reflexivity.
Qed.

(** The loop ends at an attempt between the one it starts with and the
    last one allowed. *)
Lemma retrying_attempt_bounds (chunk : list atom) (i : nat) :
  forall b n,
    n <= attempt_number (loop chunk i b n) /\
    (Z.of_nat (attempt_number (loop chunk i b n))
     <= Z.max (Z.of_nat n) max_retries)%Z.
Proof.
  induction b as [|b IH]; intros n.
  - destruct (fetch chunk i n) as [scans [e|results]] eqn:F.
    + simpl. rewrite F.
      destruct (negb (retry e)), (stop_after_attempt max_retries n); simpl; lia.
    + rewrite (retrying_returns _ _ 0 _ _ _ F). simpl. lia.
  - destruct (fetch chunk i n) as [scans [e|results]] eqn:F.
    + destruct (retry e) eqn:R.
      * destruct (stop_after_attempt max_retries n) eqn:St.
        -- rewrite (retrying_stops _ _ (S b) _ _ _ F St). simpl. lia.
        -- rewrite (retrying_again _ _ b _ _ _ F R St). simpl.
           unfold stop_after_attempt in St. apply Z.leb_gt in St.
           specialize (IH (S n)). lia.
      * rewrite (retrying_rejects _ _ (S b) _ _ _ F R). simpl. lia.
    + rewrite (retrying_returns _ _ (S b) _ _ _ F). simpl. lia.
Qed.

(** When every attempt from [n] to the last one allowed, [last], raises
    an exception the predicate accepts, the loop makes all of them and
    raises what attempt [last] raised. *)
Lemma retrying_exhausts (chunk : list atom) (i : nat)
    (scan : event) (errs : nat -> exn) (last : nat) :
  max_retries = Z.of_nat last ->
  (forall m, 1 <= m <= last ->
             fetch chunk i m = ([scan], inl (errs m)) /\ retry (errs m) = true) ->
  forall b n,
    1 <= n <= last -> last <= n + b ->
    loop chunk i b n =
      {| attempt_number := last;
         calls := repeat scan (S (last - n));
         outcome := inl (errs last) |}.
Proof.
  intros Hmax Hall.
  induction b as [|b IH]; intros n Hn Hb.
  - assert (n = last) as -> by lia.
    destruct (Hall last Hn) as [F _].
    rewrite (retrying_stops _ _ 0 _ _ _ F).
    + replace (last - last) with 0 by lia. reflexivity.
    + apply stop_when_budget_spent. lia.
  - destruct (Hall n Hn) as [F R].
    destruct (stop_after_attempt max_retries n) eqn:St.
    + unfold stop_after_attempt in St. apply Z.leb_le in St.
      assert (n = last) as -> by lia.
      rewrite (retrying_stops _ _ (S b) _ _ _ F).
      * replace (last - last) with 0 by lia. reflexivity.
      * apply stop_when_budget_spent. lia.
    + unfold stop_after_attempt in St. apply Z.leb_gt in St.
      rewrite (retrying_again _ _ b _ _ _ F R).
      * rewrite (IH (S n)) by lia. simpl.
        replace (last - n) with (S (last - S n)) by lia. reflexivity.
      * unfold stop_after_attempt. apply Z.leb_gt. lia.
Qed.

End retrying.

(* ===================================================================== *)
(** ** Properties of [gather] *)
(* ===================================================================== *)

Section gathering.

Context {A : Type}.
Implicit Types (results : list (exn + A)) (best : option (nat * exn)).

Lemma successes_all_inr (values : list A) :
  successes (map inr values : list (exn + A)) = values.
Proof.
  induction values as [|v values IH]; [reflexivity|].
  simpl. f_equal. exact IH.
Qed.

(** The failure found is the standing one or one of the list. *)
Lemma earliest_failure_origin (finish : nat -> nat) results :
  forall i best t e,
    earliest_failure finish i results best = Some (t, e) ->
    best = Some (t, e) \/ exists j, results !! j = Some (inl e).
Proof.
  induction results as [|r results IH]; intros i best t e H; simpl in H.
  - left. exact H.
  - destruct r as [e0|a].
    + apply IH in H as [H|[j H]].
      * destruct best as [[t0 e1]|].
        -- destruct (t0 <=? finish i)%nat.
           ++ left. exact H.
           ++ right. exists 0. simpl. congruence.
        -- right. exists 0. simpl. congruence.
      * right. exists (S j). exact H.
    + apply IH in H as [H|[j H]]; [left; exact H|].
      right. exists (S j). exact H.
Qed.

(** No failure is found only when there is none. *)
Lemma earliest_failure_none (finish : nat -> nat) results :
  forall i best,
    earliest_failure finish i results best = None ->
    best = None /\ forall j e, results !! j <> Some (inl e).
Proof.
  induction results as [|r results IH]; intros i best H; simpl in H.
  - split; [exact H|]. intros j e. rewrite lookup_nil. discriminate.
  - destruct r as [e0|a].
    + apply IH in H as [H _].
      destruct best as [[t0 e1]|]; [destruct (t0 <=? finish i)%nat|]; discriminate.
    + apply IH in H as [H1 H2]. split; [exact H1|].
      intros [|j] e; simpl; [discriminate|apply H2].
Qed.

(** [gather] fails exactly with the failure of one of its tasks. *)
Lemma gather_fails (finish : nat -> nat) results (i : nat) (e : exn) :
  results !! i = Some (inl e) ->
  exists j e', results !! j = Some (inl e') /\ gather finish results = inl e'.
Proof.
  intros Hi. unfold gather.
  destruct (earliest_failure finish 0 results None) as [[t e']|] eqn:E.
  - apply earliest_failure_origin in E as [E|[j E]]; [discriminate|].
    exists j, e'. split; [exact E|reflexivity].
  - apply earliest_failure_none in E as [_ E]. destruct (E i e Hi).
Qed.

Lemma gather_succeeds (finish : nat -> nat) (values : list A) :
  gather finish (map inr values) = inr values.
Proof.
  unfold gather.
  destruct (earliest_failure finish 0 (map inr values) None) as [[t e]|] eqn:E.
  - apply earliest_failure_origin in E as [E|[j E]]; [discriminate|].
    rewrite list_lookup_fmap in E. destruct (values !! j); discriminate.
  - rewrite successes_all_inr. reflexivity.
Qed.

End gathering.

(* ===================================================================== *)
(** ** Properties of [query_documents_in] *)
(* ===================================================================== *)

Section batched_query.

Variable self : FirestoreService.
Variables (collection field : string) (order_by : option string).
Variable max_retries : Z.
Variable finish : nat -> nat.

Local Abbreviation fetch_chunk :=
  (fetch_chunk_with_retry self collection field order_by max_retries).
Local Abbreviation all_tasks :=
  (tasks self collection field order_by max_retries).
Local Abbreviation query :=
  (query_documents_in self collection field order_by max_retries finish).

Lemma query_documents_in_result (values : list atom) :
  result (query values) =
  match gather finish (map outcome (all_tasks values)) with
  | inl e => inl e
  | inr per_chunk => inr (concat per_chunk)
  end.
Proof. destruct values; reflexivity. Qed.

Lemma query_documents_in_trace (values : list atom) :
  trace (query values) = concat (map calls (all_tasks values)).
Proof. destruct values; reflexivity. Qed.

Lemma lookup_tasks (values : list atom) (i : nat) :
  all_tasks values !! i = (fun chunk => fetch_chunk chunk i) <$> chunks values !! i.
Proof. unfold tasks. apply list_lookup_imap. Qed.

Lemma length_tasks (values : list atom) :
  length (all_tasks values) = chunk_count (length values).
Proof. unfold tasks. rewrite length_imap. apply length_chunks. Qed.

End batched_query.

(** C9: [query_documents_in] called with an empty list of values returns
    the empty list at once, without any round trip to the store. *)
Theorem query_documents_in_empty (self : FirestoreService)
    (collection field : string) (order_by : option string)
    (max_retries : Z) (finish : nat -> nat) :
  trace (query_documents_in self collection field order_by max_retries finish [])
    = [] /\
  result (query_documents_in self collection field order_by max_retries finish [])
    = inr [].
Proof. split; reflexivity. Qed.

(** C7: the keys are cut into consecutive chunks of at most 10 keys (chunk
    [k] holds the keys at positions [10k .. 10k+9]), as many as
    [ceil(len(values) / 10)], whose concatenation is the list of keys;
    one task is started per chunk; and when every task succeeds the call
    returns the results of the chunks concatenated in chunk order, that
    is, as a set, their union. *)
Theorem query_documents_in_chunks_and_merges (self : FirestoreService)
    (collection field : string) (order_by : option string)
    (max_retries : Z) (finish : nat -> nat) (values : list atom) :
  (concat (chunks values) = values /\
   length (chunks values) = chunk_count (length values) /\
   length values <= 10 * length (chunks values) < length values + 10 /\
   (forall k chunk, chunks values !! k = Some chunk ->
      chunk = firstn 10 (skipn (k * 10) values) /\ 1 <= length chunk <= 10)) /\
  length (tasks self collection field order_by max_retries values)
    = chunk_count (length values) /\
  forall per_chunk : list (list doc),
    map outcome (tasks self collection field order_by max_retries values)
      = map inr per_chunk ->
    result (query_documents_in self collection field order_by max_retries
                               finish values)
      = inr (concat per_chunk) /\
    forall d, d ∈ concat per_chunk <->
              exists i docs, per_chunk !! i = Some docs /\ d ∈ docs.
Proof.
  split; [|split].
  - split; [apply concat_chunks|]. split; [apply length_chunks|].
    split; [rewrite length_chunks; apply chunk_count_ceiling|].
    intros k chunk H. split.
    + apply (lookup_chunks _ _ _ H).
    + apply (chunk_width _ _ _ H).
  - apply length_tasks.
  - intros per_chunk H. split.
    + rewrite query_documents_in_result, H, gather_succeeds. reflexivity.
    + intros d. rewrite list_elem_of_In, in_concat. split.
      * intros (docs & Hdocs & Hd).
        apply list_elem_of_In, list_elem_of_lookup in Hdocs as [i Hi].
        apply list_elem_of_In in Hd. eauto.
      * intros (i & docs & Hi & Hd). exists docs.
        split; apply list_elem_of_In; [|exact Hd].
        apply list_elem_of_lookup. eauto.
Qed.

(** C3: when the task of some chunk ends in failure, whether on an
    exception that is not retried or on the last attempt allowed, the
    whole call raises the exception of a failed task and returns no
    document; when that chunk is the only one to fail, the call raises
    its very exception. *)
Theorem query_documents_in_fails_as_a_whole (self : FirestoreService)
    (collection field : string) (order_by : option string)
    (max_retries : Z) (finish : nat -> nat) (values : list atom)
    (i : nat) (st : retry_state) (e : exn) :
  tasks self collection field order_by max_retries values !! i = Some st ->
  outcome st = inl e ->
  (exists j st' e',
      tasks self collection field order_by max_retries values !! j = Some st' /\
      outcome st' = inl e' /\
      result (query_documents_in self collection field order_by max_retries
                                 finish values) = inl e') /\
  ((forall j st' e',
      tasks self collection field order_by max_retries values !! j = Some st' ->
      outcome st' = inl e' -> j = i) ->
   result (query_documents_in self collection field order_by max_retries
                              finish values) = inl e).
Proof.
  intros Hi He.
  assert (Hfail : map outcome (tasks self collection field order_by
                                     max_retries values) !! i = Some (inl e)).
  { rewrite list_lookup_fmap, Hi. simpl. congruence. }
  destruct (gather_fails finish _ _ _ Hfail) as (j & e' & Hj & Hg).
  rewrite list_lookup_fmap in Hj.
  destruct (tasks self collection field order_by max_retries values !! j)
    as [st'|] eqn:Hst'; [|discriminate].
  simpl in Hj. injection Hj as Hj.
  assert (Hres : result (query_documents_in self collection field order_by
                           max_retries finish values) = inl e').
  { rewrite query_documents_in_result, Hg. reflexivity. }
  split.
  - exists j, st', e'. auto.
  - intros Honly. specialize (Honly j st' e' Hst' Hj). subst j.
    rewrite Hres. congruence.
Qed.

Lemma query_documents_in_chunks_and_merges_witness :
  map outcome (tasks (Scenario.service_of Scenario.store) "series" "serie_uuid"
                     (Some "order") 3 Scenario.keys25)
    = map inr Scenario.per_chunk25 /\
  result (query_documents_in (Scenario.service_of Scenario.store) "series"
            "serie_uuid" (Some "order") 3 (fun i => i) Scenario.keys25)
    = inr (concat Scenario.per_chunk25).
Proof.
  assert (H : map outcome (tasks (Scenario.service_of Scenario.store) "series"
                "serie_uuid" (Some "order") 3 Scenario.keys25)
              = map inr Scenario.per_chunk25) by (vm_compute; reflexivity).
  split; [exact H|].
  destruct (query_documents_in_chunks_and_merges
              (Scenario.service_of Scenario.store) "series" "serie_uuid"
              (Some "order") 3 (fun i => i) Scenario.keys25) as (_ & _ & Hall).
  destruct (Hall Scenario.per_chunk25 H) as [Hres _]. exact Hres.
Defined.

(** The scenario of the specification: 25 keys make chunks of 10, 10 and
    5 keys; the second chunk fails twice and succeeds at its third
    attempt, so that 1 + 3 + 1 scans are made and every key is answered. *)
Example twenty_five_keys :
  map (@length atom) (chunks Scenario.keys25) = [10; 10; 5] /\
  map attempt_number
      (tasks (Scenario.service_of Scenario.store) "series" "serie_uuid"
             (Some "order") 3 Scenario.keys25) = [1; 3; 1] /\
  length (trace (query_documents_in (Scenario.service_of Scenario.store)
                   "series" "serie_uuid" (Some "order") 3 (fun i => i)
                   Scenario.keys25)) = 5 /\
  match result (query_documents_in (Scenario.service_of Scenario.store)
                   "series" "serie_uuid" (Some "order") 3 (fun i => i)
                   Scenario.keys25) with
  | inr docs => length docs = 25
  | inl _ => False
  end.
Proof. repeat split; vm_compute; reflexivity. Qed.

Lemma query_documents_in_fails_as_a_whole_witness :
  result (query_documents_in (Scenario.service_of Scenario.starved_store)
            "series" "serie_uuid" (Some "order") 3 (fun i => 2 - i)
            Scenario.keys25)
    = inl (Exn ResourceExhausted "Quota exceeded, attempt 3").
Proof.
  refine (proj2 (query_documents_in_fails_as_a_whole
            (Scenario.service_of Scenario.starved_store) "series" "serie_uuid"
            (Some "order") 3 (fun i => 2 - i) Scenario.keys25 1
            (fetch_chunk_with_retry (Scenario.service_of Scenario.starved_store)
               "series" "serie_uuid" (Some "order") 3
               (firstn 10 (skipn 10 Scenario.keys25)) 1)
            (Exn ResourceExhausted "Quota exceeded, attempt 3") _ _) _).
  - vm_compute. reflexivity.
  - vm_compute. reflexivity.
  - intros [|[|[|j]]] st' e'; vm_compute; intros H1 H2;
      try reflexivity; try discriminate.
    + injection H1 as <-. discriminate.
    + injection H1 as <-. discriminate.
Defined.

(** C2, as the specification states it, fails: a permission denial is a
    [GoogleAPIError], which the retry predicate accepts, so a chunk whose
    scans are refused is fetched three times when [max_retries] is 3, not
    once. The same holds for a malformed request ([InvalidArgument]). *)
Lemma permission_denied_is_retried :
  isinstance (Exn PermissionDenied "Missing or insufficient permissions.")
             GoogleAPIError = true /\
  retry (Exn InvalidArgument "Invalid query.") = true /\
  let st := fetch_chunk_with_retry (Scenario.service_of Scenario.locked_store)
              "series" "serie_uuid" (Some "order") 3 [AStr "s1"] 0 in
  attempt_number st = 3 /\
  length (calls st) = 3 /\
  outcome st = inl (Exn PermissionDenied "Missing or insufficient permissions.").
Proof. repeat split; vm_compute; reflexivity. Qed.

(** C2 (amended): a chunk fetch whose first attempt raises an exception
    that is not a [GoogleAPIError] (such as the [RuntimeError] of a client
    that was never initialized) is not retried: exactly one attempt is made
    for that chunk, its exception is what the task raises, and the whole
    call fails. *)
Theorem non_api_error_not_retried (self : FirestoreService)
    (collection field : string) (order_by : option string)
    (max_retries : Z) (finish : nat -> nat) (values : list atom)
    (i : nat) (chunk : list atom) (scans : list event) (e : exn) :
  chunks values !! i = Some chunk ->
  _fetch self collection field order_by chunk i 1 = (scans, inl e) ->
  isinstance e GoogleAPIError = false ->
  let st := fetch_chunk_with_retry self collection field order_by
                                   max_retries chunk i in
  attempt_number st = 1 /\ calls st = scans /\ outcome st = inl e /\
  exists e', result (query_documents_in self collection field order_by
                                        max_retries finish values) = inl e'.
Proof.
  intros Hchunk Hfetch Hfatal st.
  assert (Hst : st = {| attempt_number := 1; calls := scans; outcome := inl e |}).
  { apply retrying_rejects; [exact Hfetch|].
    rewrite retry_any_api_error. exact Hfatal. }
  rewrite Hst. simpl. repeat split.
  assert (Hi : map outcome (tasks self collection field order_by max_retries
                              values) !! i = Some (inl e)).
  { rewrite list_lookup_fmap, lookup_tasks, Hchunk. cbn [fmap option_fmap option_map].
    fold st. rewrite Hst. reflexivity. }
  destruct (gather_fails finish _ _ _ Hi) as (j & e' & _ & Hg).
  exists e'. rewrite query_documents_in_result, Hg. reflexivity.
Qed.

Lemma non_api_error_not_retried_witness :
  let st := fetch_chunk_with_retry Scenario.cold_service "series"
              "serie_uuid" (Some "order") 3 (firstn 10 Scenario.keys25) 0 in
  attempt_number st = 1 /\ calls st = [] /\
  outcome st = inl client_not_initialized /\
  exists e', result (query_documents_in Scenario.cold_service "series"
                       "serie_uuid" (Some "order") 3 (fun i => i)
                       Scenario.keys25) = inl e'.
Proof.
  apply (non_api_error_not_retried Scenario.cold_service "series" "serie_uuid"
           (Some "order") 3 (fun i => i) Scenario.keys25 0
           (firstn 10 Scenario.keys25) [] client_not_initialized).
  - vm_compute. reflexivity.
  - reflexivity.
  - reflexivity.
Defined.

(** C8: with a positive [max_retries], the task of a chunk never makes
    more than [max_retries] attempts; and when every one of these attempts
    raises a [GoogleAPIError], the same chunk is scanned [max_retries]
    times and the task raises the very exception of the last attempt, not
    an error that wraps it. *)
Theorem retries_exhausted_raise_last (self : FirestoreService)
    (client : AsyncClient) (collection field : string)
    (order_by : option string) (max_retries : Z)
    (chunk : list atom) (i : nat) :
  _client self = Some client ->
  (1 <= max_retries)%Z ->
  let st := fetch_chunk_with_retry self collection field order_by
                                   max_retries chunk i in
  (1 <= Z.of_nat (attempt_number st) <= max_retries)%Z /\
  forall errs : nat -> exn,
    (forall n, (1 <= Z.of_nat n <= max_retries)%Z ->
       query_stream client collection field chunk (ordering order_by) i n
         = inl (errs n) /\
       isinstance (errs n) GoogleAPIError = true) ->
    Z.of_nat (attempt_number st) = max_retries /\
    calls st = repeat (Scan collection field chunk (ordering order_by))
                      (Z.to_nat max_retries) /\
    outcome st = inl (errs (Z.to_nat max_retries)).
Proof.
  intros Hclient Hmax st. split.
  - destruct (retrying_attempt_bounds self collection field order_by
                max_retries chunk i (Z.to_nat max_retries) 1) as [H1 H2].
    fold (fetch_chunk_with_retry self collection field order_by max_retries
            chunk i) in H1, H2. fold st in H1, H2. lia.
  - intros errs Hall.
    assert (Hst : st = {| attempt_number := Z.to_nat max_retries;
                          calls := repeat (Scan collection field chunk
                                             (ordering order_by))
                                     (S (Z.to_nat max_retries - 1));
                          outcome := inl (errs (Z.to_nat max_retries)) |}).
    { apply retrying_exhausts; try lia.
      intros m Hm. destruct (Hall m) as [Hq Hr]; [lia|].
      split.
      - unfold _fetch, Firestore.client. rewrite Hclient, Hq. reflexivity.
      - rewrite retry_any_api_error. exact Hr. }
    rewrite Hst. cbn [attempt_number calls outcome].
    replace (S (Z.to_nat max_retries - 1)) with (Z.to_nat max_retries) by lia.
    split; [lia|split; reflexivity].
Qed.

Lemma retries_exhausted_raise_last_witness :
  let st := fetch_chunk_with_retry (Scenario.service_of Scenario.starved_store)
              "series" "serie_uuid" (Some "order") 3
              (firstn 10 (skipn 10 Scenario.keys25)) 1 in
  Z.of_nat (attempt_number st) = 3%Z /\
  calls st = repeat (Scan "series" "serie_uuid"
                          (firstn 10 (skipn 10 Scenario.keys25)) (Some "order")) 3 /\
  outcome st = inl (Exn ResourceExhausted "Quota exceeded, attempt 3").
Proof.
  refine (proj2 (retries_exhausted_raise_last
            (Scenario.service_of Scenario.starved_store) Scenario.starved_store
            "series" "serie_uuid" (Some "order") 3
            (firstn 10 (skipn 10 Scenario.keys25)) 1 eq_refl _)
          (fun n => Exn ResourceExhausted
                      ("Quota exceeded, attempt " ++ py_str (AInt (Z.of_nat n))))
          _).
  - lia.
  - intros n Hn. split; reflexivity.
Defined.

(* ===================================================================== *)
(** ** Properties of the ACL service *)
(* ===================================================================== *)

Section point_reads.

Variable self : FirestoreService.

Lemma get_document_ready (c : AsyncClient) (collection doc_id : string) :
  _client self = Some c ->
  get_document self collection doc_id =
    ([PointRead collection doc_id],
     match doc_get c collection doc_id with
     | inr snapshot => inr snapshot
     | inl e => if isinstance e NotFound then inr None else inl e
     end).
Proof.
  intros H. unfold get_document, client. rewrite H.
  destruct (doc_get c collection doc_id) as [e|snapshot]; [|reflexivity].
  destruct (isinstance e NotFound); reflexivity.
Qed.

(** Without a client nothing is read and the [RuntimeError] of the
    [client] property comes out. *)
Lemma get_document_cold (collection doc_id : string) :
  _client self = None ->
  get_document self collection doc_id = ([], inl client_not_initialized).
Proof. intros H. unfold get_document, client. rewrite H. reflexivity. Qed.

(** A point read that returns made exactly one round trip. *)
Lemma get_document_returns (collection doc_id : string)
    (t : list event) (snapshot : option doc) :
  get_document self collection doc_id = (t, inr snapshot) ->
  t = [PointRead collection doc_id].
Proof.
  unfold get_document. destruct (client self) as [e|c]; [discriminate|].
  destruct (doc_get c collection doc_id) as [e|s];
    [destruct (isinstance e NotFound)|]; congruence.
Qed.

End point_reads.

Section deduplication.

Lemma py_eq_str (s : string) (y : atom) : py_eq (AStr s) y = true <-> y = AStr s.
Proof.
  destruct y as [|b|z|t]; simpl; try (split; congruence).
  rewrite String.eqb_eq. split; congruence.
Qed.

Lemma py_in_str (s : string) (l : list atom) :
  py_in (AStr s) l = bool_decide (AStr s ∈ l).
Proof.
  unfold py_in. induction l as [|y l IH]; [reflexivity|].
  cbn [existsb]. rewrite IH.
  destruct (py_eq (AStr s) y) eqn:E; cbn [orb].
  - symmetry. apply bool_decide_eq_true_2.
    apply py_eq_str in E. subst y. left.
  - apply bool_decide_ext. rewrite elem_of_cons.
    split; [tauto|]. intros [Hy|H]; [|exact H].
    symmetry in Hy. apply py_eq_str in Hy. congruence.
Qed.

Lemma filter_strings (a : string) (l : list string) :
  List.filter (fun y => negb (py_eq (AStr a) y)) (AStr <$> l)
  = AStr <$> List.filter (fun b => negb (String.eqb a b)) l.
Proof.
  induction l as [|b l IH]; [reflexivity|].
  rewrite fmap_cons. cbn [List.filter].
  change (py_eq (AStr a) (AStr b)) with (String.eqb a b).
  destruct (String.eqb a b); cbn [negb]; rewrite IH; reflexivity.
Qed.

(** On identifiers, which are strings, [dedupe] keeps one copy of each. *)
Lemma dedupe_strings (l : list string) :
  exists l', dedupe (AStr <$> l) = AStr <$> l' /\ NoDup l' /\
             forall r, r ∈ l' <-> r ∈ l.
Proof.
  induction l as [|a l (l' & Heq & Hnd & Hin)].
  - exists []. split; [reflexivity|]. split; [constructor|]. tauto.
  - exists (a :: List.filter (fun b => negb (String.eqb a b)) l').
    assert (Hmem : forall r, r ∈ List.filter (fun b => negb (String.eqb a b)) l'
                             <-> r ∈ l /\ r <> a).
    { intros r. rewrite list_elem_of_In, filter_In, <- list_elem_of_In, Hin.
      rewrite negb_true_iff, String.eqb_neq. intuition congruence. }
    split; [|split].
    + rewrite !fmap_cons. cbn [dedupe]. rewrite Heq. f_equal.
      apply filter_strings.
    + constructor.
      * rewrite Hmem. tauto.
      * apply NoDup_ListNoDup, List.NoDup_filter, NoDup_ListNoDup, Hnd.
    + intros r. rewrite !elem_of_cons, Hmem.
      destruct (decide (r = a)); tauto.
Qed.

End deduplication.

Section acl_service.

Variable self : ACLService.
Variable set_iter : list atom -> list atom.

Lemma get_profile_with_acl_found (profile_uuid : string) (fields : doc)
    (t : list event) :
  get_document (firestore self) "profiles" profile_uuid
    = (t, inr (Some fields)) ->
  doc_truthy (Some fields) = true ->
  get_profile_with_acl self set_iter profile_uuid =
    (t ++ trace (org_series_acl_of self (org_uuid_of fields)),
     match result (org_series_acl_of self (org_uuid_of fields)) with
     | inl e => inl e
     | inr org_series_acl =>
         match merge_series_acl set_iter org_series_acl
                 (dict_get_default fields "series_acl" (PList [])) with
         | inl e => inl e
         | inr series_acl => inr (fields, series_acl)
         end
     end).
Proof.
  intros Hget Htrue. unfold get_profile_with_acl. rewrite Hget.
  unfold bind at 1. rewrite Htrue. cbn [negb].
  destruct (org_series_acl_of self (org_uuid_of fields)) as [t1 [e|o]];
    cbn [bind trace result fst snd]; [reflexivity|].
  destruct (merge_series_acl set_iter o _) as [e|series_acl];
    cbn [lift_result bind ret]; rewrite ?app_nil_r; reflexivity.
Qed.

Lemma get_profile_with_acl_absent (profile_uuid : string) (t : list event)
    (snapshot : option doc) :
  get_document (firestore self) "profiles" profile_uuid = (t, inr snapshot) ->
  doc_truthy snapshot = false ->
  get_profile_with_acl self set_iter profile_uuid
    = (t, inl (profile_not_found profile_uuid)).
Proof.
  intros Hget Hfalse. unfold get_profile_with_acl. rewrite Hget.
  unfold bind at 1. destruct snapshot as [fields|].
  - rewrite Hfalse. cbn [negb raise]. rewrite app_nil_r. reflexivity.
  - cbn [raise]. rewrite app_nil_r. reflexivity.
Qed.

Lemma get_profile_with_acl_store_error (profile_uuid : string)
    (t : list event) (e : exn) :
  get_document (firestore self) "profiles" profile_uuid = (t, inl e) ->
  get_profile_with_acl self set_iter profile_uuid = (t, inl e).
Proof.
  intros Hget. unfold get_profile_with_acl. rewrite Hget. reflexivity.
Qed.

(** The organization identifier is never the empty string. *)
Lemma org_uuid_of_non_empty (fields : doc) (id : string) :
  org_uuid_of fields = Some id -> str_truthy id = true.
Proof.
  unfold org_uuid_of.
  destruct (negb (org_uuid_truthy _)); intros H;
    apply (first_non_empty_to_str_non_empty _ _ H).
Qed.

(** The round trips of reading the organization's grants. *)
Lemma org_series_acl_of_trace (c : AsyncClient) (org_uuid : option string) :
  _client (firestore self) = Some c ->
  (forall id, org_uuid = Some id -> str_truthy id = true) ->
  trace (org_series_acl_of self org_uuid) =
    match org_uuid with
    | Some id => [PointRead "orgs" id]
    | None => []
    end.
Proof.
  intros Hc Hid. destruct org_uuid as [id|]; [|reflexivity].
  unfold org_series_acl_of. rewrite (Hid id eq_refl).
  rewrite (get_document_ready _ c _ _ Hc). unfold bind.
  destruct (doc_get c "orgs" id) as [e|[fields|]].
  - destruct (isinstance e NotFound); reflexivity.
  - destruct (doc_truthy (Some fields)); reflexivity.
  - reflexivity.
Qed.

(** An organization without a document grants nothing, and reading it is
    no error. *)
Lemma org_series_acl_of_missing (id : string) (t : list event) :
  get_document (firestore self) "orgs" id = (t, inr None) ->
  org_series_acl_of self (Some id) = (t, inr (PList [])) \/
  (str_truthy id = false /\ org_series_acl_of self (Some id) = ([], inr (PList []))).
Proof.
  intros H. unfold org_series_acl_of. destruct (str_truthy id).
  - left. rewrite H. cbn [bind ret]. rewrite app_nil_r. reflexivity.
  - right. split; reflexivity.
Qed.

End acl_service.

(** C1: for a profile document whose organization grants are the list [O]
    (empty when there is no organization or no document for it) and whose
    own grants are the list [D], [get_profile_with_acl] returns the profile
    with an access list that has no repetition and holds exactly the
    identifiers of [O] and [D], whatever the order and the repetitions in
    [O] and [D] and whatever the order in which the set is enumerated. *)
Theorem access_set_is_deduplicated_union (self : ACLService)
    (set_iter : list atom -> list atom) (profile_uuid : string)
    (fields : doc) (t : list event) (O D : list string) :
  (forall l, set_iter l ≡ₚ l) ->
  get_document (firestore self) "profiles" profile_uuid
    = (t, inr (Some fields)) ->
  doc_truthy (Some fields) = true ->
  result (org_series_acl_of self (org_uuid_of fields))
    = inr (PList (AStr <$> O)) ->
  dict_get_default fields "series_acl" (PList []) = PList (AStr <$> D) ->
  exists acl : list string,
    result (get_profile_with_acl self set_iter profile_uuid)
      = inr (fields, AStr <$> acl) /\
    NoDup acl /\
    (forall r, r ∈ acl <-> r ∈ O \/ r ∈ D) /\
    (list_to_set acl : gset string) = list_to_set O ∪ list_to_set D.
Proof.
  intros Hperm Hget Htrue Horg Hown.
  rewrite (get_profile_with_acl_found self set_iter _ _ _ Hget Htrue).
  cbn [result snd]. fold (result (org_series_acl_of self (org_uuid_of fields))).
  rewrite Horg, Hown. unfold merge_series_acl. cbn [py_add py_iter].
  rewrite <- fmap_app.
  destruct (dedupe_strings (O ++ D)) as (l' & Heq & Hnd & Hin).
  rewrite Heq.
  destruct (Permutation_map_inv AStr l' (Hperm (AStr <$> l')))
    as (acl & Hacl & Hp).
  exists acl.
  assert (Hmem : forall r, r ∈ acl <-> r ∈ O \/ r ∈ D).
  { intros r. rewrite <- Hp, Hin, elem_of_app. reflexivity. }
  split; [do 2 f_equal; exact Hacl|]. split; [rewrite <- Hp; exact Hnd|].
  split; [exact Hmem|].
  apply set_eq. intros r.
  rewrite elem_of_union, !elem_of_list_to_set. apply Hmem.
Qed.

(** The scenario of the specification: [p1] holds [s1] and [s2], its
    organization [orgA] grants [s2] and [s3]; the access list is made of
    [s1], [s2] and [s3], each once. *)
Lemma access_set_is_deduplicated_union_witness :
  exists acl : list string,
    result (get_profile_with_acl Scenario.acl Scenario.reverse_order "p1")
      = inr (Scenario.p1, AStr <$> acl) /\
    NoDup acl /\
    (forall r, r ∈ acl <-> r ∈ ["s2"; "s3"] \/ r ∈ ["s1"; "s2"]) /\
    (list_to_set acl : gset string)
      = list_to_set ["s2"; "s3"] ∪ list_to_set ["s1"; "s2"].
Proof.
  apply (access_set_is_deduplicated_union Scenario.acl Scenario.reverse_order
           "p1" Scenario.p1 [PointRead "profiles" "p1"]).
  - intros l. symmetry. apply Permutation_rev.
  - reflexivity.
  - vm_compute. reflexivity.
  - vm_compute. reflexivity.
  - vm_compute. reflexivity.
Defined.

(** C5: [validate_serie_access(P, R)] makes the round trips of
    [get_profile_with_acl(P)], fails when and as that call fails, and
    otherwise returns whether [R] is in the access list; it never fails
    on account of [R]. *)
Theorem validate_serie_access_is_membership (self : ACLService)
    (set_iter : list atom -> list atom) (profile_uuid serie_uuid : string) :
  trace (validate_serie_access self set_iter profile_uuid serie_uuid)
    = trace (get_profile_with_acl self set_iter profile_uuid) /\
  result (validate_serie_access self set_iter profile_uuid serie_uuid) =
    match result (get_profile_with_acl self set_iter profile_uuid) with
    | inl e => inl e
    | inr (_, series_acl) => inr (bool_decide (AStr serie_uuid ∈ series_acl))
    end.
Proof.
  unfold validate_serie_access.
  destruct (get_profile_with_acl self set_iter profile_uuid)
    as [t [e|[profile series_acl]]]; cbn [bind ret trace result fst snd].
  - split; reflexivity.
  - rewrite app_nil_r, py_in_str. split; reflexivity.
Qed.

(** C6: the code departs from the claim on a profile document that exists
    but has no field. The point read of [p0] yields a document (the empty
    one), yet [if not profile] takes it for a missing one and
    [get_profile_with_acl] raises [ProfileNotFoundException]. *)
Theorem empty_profile_reported_missing :
  doc_get Scenario.store "profiles" "p0" = inr (Some ∅) /\
  get_document (firestore Scenario.acl) "profiles" "p0"
    = ([PointRead "profiles" "p0"], inr (Some ∅)) /\
  result (get_profile_with_acl Scenario.acl Scenario.insertion_order "p0")
    = inl (profile_not_found "p0").
Proof. repeat split. Qed.

(** C10: once the profile is read, the organization identifier is what
    [org_uuid] normalizes to and, only when that is nothing, what [orgs]
    normalizes to; the organization is read with that identifier, and no
    organization is read at all when both normalize to nothing. *)
Theorem org_uuid_before_orgs (self : ACLService)
    (set_iter : list atom -> list atom) (c : AsyncClient)
    (profile_uuid : string) (fields : doc) :
  _client (firestore self) = Some c ->
  doc_get c "profiles" profile_uuid = inr (Some fields) ->
  fields <> ∅ ->
  org_uuid_of fields =
    match _first_non_empty_to_str (dict_get fields "org_uuid") with
    | Some id => Some id
    | None => _first_non_empty_to_str (dict_get fields "orgs")
    end /\
  trace (get_profile_with_acl self set_iter profile_uuid) =
    PointRead "profiles" profile_uuid ::
    match org_uuid_of fields with
    | Some id => [PointRead "orgs" id]
    | None => []
    end.
Proof.
  intros Hc Hdoc Hne. split.
  - unfold org_uuid_of.
    destruct (_first_non_empty_to_str (dict_get fields "org_uuid")) as [id|] eqn:E;
      [|reflexivity].
    cbn [org_uuid_truthy].
    rewrite (first_non_empty_to_str_non_empty _ _ E). reflexivity.
  - assert (Hget : get_document (firestore self) "profiles" profile_uuid
                   = ([PointRead "profiles" profile_uuid], inr (Some fields))).
    { rewrite (get_document_ready _ c _ _ Hc), Hdoc. reflexivity. }
    assert (Htrue : doc_truthy (Some fields) = true).
    { cbn [doc_truthy]. apply negb_true_iff, Nat.eqb_neq.
      intros Hsize. apply Hne, map_size_empty_iff, Hsize. }
    rewrite (get_profile_with_acl_found self set_iter _ _ _ Hget Htrue).
    cbn [trace fst]. fold (trace (org_series_acl_of self (org_uuid_of fields))).
    rewrite (org_series_acl_of_trace self c _ Hc (org_uuid_of_non_empty fields)).
    reflexivity.
Qed.

(** Profile [p3]: [org_uuid] is blank, so [orgs] decides, and its first
    usable element, trimmed, is the organization that is read. *)
Lemma org_uuid_before_orgs_witness :
  org_uuid_of Scenario.p3 = Some "orgA" /\
  trace (get_profile_with_acl Scenario.acl Scenario.insertion_order "p3")
    = [PointRead "profiles" "p3"; PointRead "orgs" "orgA"].
Proof.
  destruct (org_uuid_before_orgs Scenario.acl Scenario.insertion_order
              Scenario.store "p3" Scenario.p3 eq_refl eq_refl) as [H1 H2].
  - intros H. apply (f_equal size) in H. vm_compute in H. discriminate.
  - split.
    + rewrite H1. vm_compute. reflexivity.
    + rewrite H2, H1. vm_compute. reflexivity.
Defined.

(* ===================================================================== *)
(** ** Further facts and scenarios *)
(* ===================================================================== *)

(** With [max_retries] at most 1 a chunk is attempted once, whatever the
    attempt gives. *)
Lemma single_attempt_without_retries (self : FirestoreService)
    (collection field : string) (order_by : option string)
    (max_retries : Z) (chunk : list atom) (i : nat) :
  (max_retries <= 1)%Z ->
  attempt_number (fetch_chunk_with_retry self collection field order_by
                                         max_retries chunk i) = 1.
Proof.
  intros H.
  destruct (retrying_attempt_bounds self collection field order_by
              max_retries chunk i (Z.to_nat max_retries) 1) as [H1 H2].
  unfold fetch_chunk_with_retry. lia.
Qed.

Section scalar_sets.

Lemma py_eq_refl (x : atom) : py_eq x x = true.
Proof.
  destruct x as [|b|z|s]; simpl;
    [reflexivity|apply Z.eqb_refl|apply Z.eqb_refl|apply String.eqb_refl].
Qed.

Lemma py_eq_sym (x y : atom) : py_eq x y = py_eq y x.
Proof.
  destruct x as [|b|z|s], y as [|b'|z'|s']; simpl;
    try reflexivity; try apply Z.eqb_sym; apply String.eqb_sym.
Qed.

Lemma py_eq_trans (x y z : atom) :
  py_eq x y = true -> py_eq y z = true -> py_eq x z = true.
Proof.
  destruct x as [|b|n|s], y as [|b'|n'|s'], z as [|b''|n''|s'']; simpl;
    try discriminate; try reflexivity;
    rewrite ?Z.eqb_eq, ?String.eqb_eq; congruence.
Qed.

(** Two equal scalars are in the same lists. *)
Lemma py_in_equal (x y : atom) (l : list atom) :
  py_eq x y = true -> py_in x l = py_in y l.
Proof.
  intros H. unfold py_in. induction l as [|a l IH]; [reflexivity|].
  cbn [existsb]. rewrite IH. f_equal.
  destruct (py_eq y a) eqn:E.
  - apply (py_eq_trans _ _ _ H E).
  - destruct (py_eq x a) eqn:E'; [|reflexivity].
    rewrite py_eq_sym in H. rewrite (py_eq_trans _ _ _ H E') in E. discriminate.
Qed.

Lemma py_in_cons (x a : atom) (l : list atom) :
  py_in x (a :: l) = py_eq x a || py_in x l.
Proof. reflexivity. Qed.

Lemma py_in_filter (a x : atom) (l : list atom) :
  py_in x (List.filter (fun y => negb (py_eq a y)) l)
  = negb (py_eq a x) && py_in x l.
Proof.
  unfold py_in. induction l as [|y l IH]; [apply eq_sym, andb_false_r|].
  cbn [List.filter existsb].
  destruct (py_eq a y) eqn:Ey; cbn [negb existsb]; rewrite IH.
  - destruct (py_eq x y) eqn:Exy; [|reflexivity]. cbn [orb].
    rewrite py_eq_sym in Exy. rewrite (py_eq_trans _ _ _ Ey Exy). reflexivity.
  - destruct (py_eq x y) eqn:Exy; cbn [orb]; [|reflexivity].
    rewrite andb_true_r.
    destruct (py_eq a x) eqn:Eax; [|reflexivity].
    rewrite (py_eq_trans _ _ _ Eax Exy) in Ey. discriminate.
Qed.

(** A set holds what the iterable it was built from holds. *)
Lemma py_in_dedupe (x : atom) (l : list atom) :
  py_in x (dedupe l) = py_in x l.
Proof.
  induction l as [|a l IH]; [reflexivity|].
  cbn [dedupe]. rewrite !py_in_cons, py_in_filter, IH, (py_eq_sym a x).
  destruct (py_eq x a); reflexivity.
Qed.

Lemma py_distinct_filter (a : atom) (l : list atom) :
  py_distinct l = true ->
  py_distinct (List.filter (fun y => negb (py_eq a y)) l) = true.
Proof.
  induction l as [|y l IH]; [reflexivity|].
  cbn [py_distinct List.filter]. intros H.
  apply andb_true_iff in H as [Hy Hl].
  destruct (py_eq a y); cbn [negb]; [apply IH, Hl|].
  cbn [py_distinct]. rewrite py_in_filter, (IH Hl).
  apply negb_true_iff in Hy. rewrite Hy, andb_false_r. reflexivity.
Qed.

Lemma py_distinct_dedupe (l : list atom) : py_distinct (dedupe l) = true.
Proof.
  induction l as [|a l IH]; [reflexivity|].
  cbn [dedupe py_distinct].
  rewrite py_in_filter, py_eq_refl, (py_distinct_filter _ _ IH). reflexivity.
Qed.

(** For grant lists of any scalars, in Python's sense of equality: the
    merged list holds what either list holds, whatever the order of
    enumeration. *)
Lemma merge_series_acl_lists (set_iter : list atom -> list atom)
    (O D : list atom) :
  (forall l, set_iter l ≡ₚ l) ->
  exists acl, merge_series_acl set_iter (PList O) (PList D) = inr acl /\
              acl ≡ₚ dedupe (O ++ D) /\
              forall x, py_in x acl = py_in x O || py_in x D.
Proof.
  intros Hperm. exists (set_iter (dedupe (O ++ D))).
  split; [reflexivity|]. split; [apply Hperm|].
  intros x. transitivity (py_in x (dedupe (O ++ D))).
  - unfold py_in. apply eq_true_iff_eq.
    rewrite !existsb_exists. split; intros (y & Hy & E); exists y;
      (split; [|exact E]); apply list_elem_of_In;
      apply list_elem_of_In in Hy; [rewrite <- (Hperm _)|rewrite (Hperm _)];
      exact Hy.
  - rewrite py_in_dedupe. unfold py_in. apply existsb_app.
Qed.

End scalar_sets.

Section scalar_sets_order.

Lemma py_in_perm (x : atom) (l l' : list atom) :
  l ≡ₚ l' -> py_in x l = py_in x l'.
Proof.
  intros H. unfold py_in. apply eq_true_iff_eq. rewrite !existsb_exists.
  split; intros (y & Hy & E); exists y; (split; [|exact E]);
    apply list_elem_of_In; apply list_elem_of_In in Hy;
    [rewrite <- H|rewrite H]; exact Hy.
Qed.

Lemma py_distinct_perm (l l' : list atom) :
  l ≡ₚ l' -> py_distinct l = py_distinct l'.
Proof.
  induction 1 as [|x l l' Hp IH|x y l|l1 l2 l3 _ IH1 _ IH2].
  - reflexivity.
  - cbn [py_distinct]. rewrite IH, (py_in_perm x _ _ Hp). reflexivity.
  - cbn [py_distinct]. rewrite !py_in_cons, (py_eq_sym y x).
    destruct (py_eq x y), (py_in y l), (py_in x l); reflexivity.
  - congruence.
Qed.

(** The access list of scalars has no two equal elements. *)
Lemma merge_series_acl_distinct (set_iter : list atom -> list atom)
    (O D : list atom) (acl : list atom) :
  (forall l, set_iter l ≡ₚ l) ->
  merge_series_acl set_iter (PList O) (PList D) = inr acl ->
  py_distinct acl = true.
Proof.
  intros Hperm [= <-].
  rewrite (py_distinct_perm _ _ (Hperm _)). apply py_distinct_dedupe.
Qed.

End scalar_sets_order.

Section failures.

Variable self : ACLService.
Variable set_iter : list atom -> list atom.

(** A profile that is found and has fields makes the call fail only
    through the read of its organization or through grant values that
    cannot be added or enumerated. *)
Lemma present_profile_failures (profile_uuid : string) (fields : doc)
    (t : list event) (e : exn) :
  get_document (firestore self) "profiles" profile_uuid
    = (t, inr (Some fields)) ->
  doc_truthy (Some fields) = true ->
  result (get_profile_with_acl self set_iter profile_uuid) = inl e ->
  (exists id t', get_document (firestore self) "orgs" id = (t', inl e)) \/
  exn_cls e = TypeError.
Proof.
  intros Hget Htrue.
  rewrite (get_profile_with_acl_found self set_iter _ _ _ Hget Htrue).
  cbn [result snd].
  destruct (org_series_acl_of self (org_uuid_of fields)) as [t1 [e1|o]] eqn:Horg;
    cbn [result snd].
  - intros [= <-]. left. unfold org_series_acl_of in Horg.
    destruct (org_uuid_of fields) as [id|]; [|discriminate].
    destruct (str_truthy id); [|discriminate].
    destruct (get_document (firestore self) "orgs" id)
      as [t' [e'|[org|]]] eqn:Hdoc; cbn [bind ret] in Horg.
    + exists id, t'. congruence.
    + destruct (doc_truthy (Some org)); discriminate.
    + discriminate.
  - intros H. right. unfold merge_series_acl in H.
    destruct (py_add o _) as [e1|both] eqn:Hadd.
    + injection H as <-.
      destruct o as [[| | |] | | |],
               (dict_get_default fields "series_acl" (PList [])) as [[| | |] | | |];
        cbn in Hadd; try discriminate; injection Hadd as <-; reflexivity.
    + destruct (py_iter both) as [e2|elements] eqn:Hiter; [|discriminate].
      injection H as <-.
      destruct both as [[| | |] | | |]; cbn in Hiter; try discriminate;
        injection Hiter as <-; reflexivity.
Qed.

End failures.

(** The scenarios of the specification and of the source. *)
Example scenario_p1 :
  get_profile_with_acl Scenario.acl Scenario.insertion_order "p1"
  = ([PointRead "profiles" "p1"; PointRead "orgs" "orgA"],
     inr (Scenario.p1, [AStr "s2"; AStr "s3"; AStr "s1"])).
Proof. vm_compute. reflexivity. Qed.

(** An empty [orgs] list: no organization is read. *)
Example scenario_p2 :
  get_profile_with_acl Scenario.acl Scenario.insertion_order "p2"
  = ([PointRead "profiles" "p2"], inr (Scenario.p2, [AStr "s5"])).
Proof. vm_compute. reflexivity. Qed.

(** An organization without a document: it is read, grants nothing, and
    the call succeeds. *)
Example scenario_p4 :
  get_profile_with_acl Scenario.acl Scenario.insertion_order "p4"
  = ([PointRead "profiles" "p4"; PointRead "orgs" "ghost"],
     inr (Scenario.p4, [AStr "s7"])).
Proof. vm_compute. reflexivity. Qed.

(** A profile that does not exist. *)
Example scenario_unknown_profile :
  get_profile_with_acl Scenario.acl Scenario.insertion_order "nobody"
  = ([PointRead "profiles" "nobody"], inl (profile_not_found "nobody")).
Proof. vm_compute. reflexivity. Qed.

Example scenario_access :
  result (validate_serie_access Scenario.acl Scenario.insertion_order "p1" "s3")
    = inr true /\
  result (validate_serie_access Scenario.acl Scenario.insertion_order "p1" "s9")
    = inr false.
Proof. split; vm_compute; reflexivity. Qed.

(** The shapes of the organization field. *)
Example normalization_shapes :
  _first_non_empty_to_str (PStr "  orgA ") = Some "orgA" /\
  _first_non_empty_to_str (PStr "   ") = None /\
  _first_non_empty_to_str PNone = None /\
  _first_non_empty_to_str (PList []) = None /\
  _first_non_empty_to_str (PList [ANone; AStr " "; AStr " b "; AStr "c"]) = Some "b" /\
  _first_non_empty_to_str (PTuple [ABool false; AInt 0; AInt 42; AStr "c"]) = Some "42" /\
  _first_non_empty_to_str (PAtom (AInt 7)) = Some "7".
Proof. repeat split. Qed.

(* ===================================================================== *)
(** ** Trimming *)
(* ===================================================================== *)

Section trimming.

(** A list of characters that does not start with white space. *)
Local Abbreviation starts_clean cs :=
  (match cs with [] => True | c :: _ => isspace c = false end).

Lemma lstrip_chars_clean (cs : list ascii) : starts_clean (lstrip_chars cs).
Proof.
  induction cs as [|c cs IH]; [exact I|]. simpl.
  destruct (isspace c) eqn:E; [exact IH|exact E].
Qed.

Lemma lstrip_chars_id (cs : list ascii) :
  starts_clean cs -> lstrip_chars cs = cs.
Proof. destruct cs as [|c cs]; [reflexivity|]. simpl. intros ->. reflexivity. Qed.

Lemma lstrip_chars_keeps_last (cs : list ascii) (c : ascii) :
  isspace c = false -> exists pre, lstrip_chars (cs ++ [c]) = pre ++ [c].
Proof.
  intros Hc. induction cs as [|d cs [pre IH]]; simpl.
  - rewrite Hc. exists []. reflexivity.
  - destruct (isspace d).
    + exists pre. exact IH.
    + exists (d :: cs). reflexivity.
Qed.

Lemma rstrip_chars_clean (cs : list ascii) :
  starts_clean cs -> starts_clean (rstrip_chars cs).
Proof.
  destruct cs as [|c cs]; [intros _; exact I|]. intros Hc.
  unfold rstrip_chars. cbn [rev].
  destruct (lstrip_chars_keeps_last (rev cs) c Hc) as [pre ->].
  rewrite rev_app_distr. exact Hc.
Qed.

Lemma rstrip_chars_idempotent (cs : list ascii) :
  rstrip_chars (rstrip_chars cs) = rstrip_chars cs.
Proof.
  unfold rstrip_chars. rewrite rev_involutive.
  rewrite (lstrip_chars_id (lstrip_chars (rev cs))); [reflexivity|].
  apply lstrip_chars_clean.
Qed.

(** [s.strip().strip() == s.strip()] *)
Lemma strip_idempotent (s : string) : strip (strip s) = strip s.
Proof.
  unfold strip. rewrite list_ascii_of_string_of_list_ascii.
  rewrite lstrip_chars_id.
  - rewrite rstrip_chars_idempotent. reflexivity.
  - apply rstrip_chars_clean, lstrip_chars_clean.
Qed.

Lemma strip_trimmed (s : string) : trimmed (strip s).
Proof. apply strip_idempotent. Qed.

End trimming.

(* ===================================================================== *)
(** ** The life cycle of the service *)
(* ===================================================================== *)

Section lifecycle.

Variable connect : string -> AsyncClient.

Local Abbreviation init := (Lifecycle.init connect).
Local Abbreviation close := Lifecycle.close.
Local Abbreviation run := (Lifecycle.run connect).

Lemma run_snoc (calls : list Lifecycle.call) (c : Lifecycle.call)
    (self : FirestoreService) :
  run (calls ++ [c]) self = Lifecycle.apply_call connect (run calls self) c.
Proof. unfold Lifecycle.run. rewrite fold_left_app. reflexivity. Qed.

(** What every service reached from a new one looks like. *)
Lemma run_shape (p : string) (calls : list Lifecycle.call) :
  let s := run calls (Lifecycle.__init__ p) in
  project_id s = p /\
  _client s = (if _is_initialized s then Some (connect p) else None) /\
  (_is_initialized s = true <-> last calls = Some Lifecycle.Init).
Proof.
  induction calls as [|c calls IH] using rev_ind.
  - cbn. repeat split; discriminate.
  - cbn zeta in *. rewrite run_snoc, last_snoc.
    destruct IH as (Hp & Hc & _).
    destruct c; cbn [Lifecycle.apply_call];
      unfold Lifecycle.init, Lifecycle.close;
      destruct (_is_initialized (run calls (Lifecycle.__init__ p))) eqn:E;
      cbn [negb project_id _client _is_initialized];
      rewrite ?E, ?Hp; repeat split; try congruence; try discriminate.
Qed.

End lifecycle.

(** X1: whatever sequence of [init] and [close] calls a new service goes
    through, its flag and its client agree, it keeps its project, and its
    client is available, and is the one of its project, exactly when the
    last call was [init]; otherwise the [client] property raises the
    [RuntimeError]. *)
Theorem client_available_iff_last_call_is_init (connect : string -> AsyncClient)
    (p : string) (calls : list Lifecycle.call) :
  let s := Lifecycle.run connect calls (Lifecycle.__init__ p) in
  Lifecycle.consistent s /\
  project_id s = p /\
  (client s = inr (connect p) <-> last calls = Some Lifecycle.Init) /\
  (client s = inl client_not_initialized <-> last calls <> Some Lifecycle.Init).
Proof.
  intros s. destruct (run_shape connect p calls) as (Hp & Hc & Hi).
  fold s in Hp, Hc, Hi. unfold Lifecycle.consistent, client. rewrite Hc.
  destruct (_is_initialized s).
  - repeat split; try congruence; try tauto.
  - repeat split; try congruence; try discriminate.
    + intros H. apply Hi in H. discriminate.
    + intros _ H. apply Hi in H. discriminate.
Qed.

(** X2: [init] never replaces a client: a second [init] leaves the service
    as the first one made it, even if the library would now build another
    client; and [init] after [close] builds a client again. *)
Theorem init_keeps_the_client (connect connect' : string -> AsyncClient)
    (self : FirestoreService) :
  Lifecycle.init connect' (Lifecycle.init connect self)
    = Lifecycle.init connect self /\
  client (Lifecycle.init connect (Lifecycle.close self))
    = inr (connect (project_id self)).
Proof.
  unfold Lifecycle.init, Lifecycle.close, client.
  destruct self as [p c []]; cbn; split; reflexivity.
Qed.

(** X3: [get_document] never raises [NotFound]: an exception it raises is
    either the [RuntimeError] of a missing client, raised before any round
    trip, or the exception the store raised for this very read, which is
    then no [NotFound]. *)
Theorem get_document_never_raises_not_found (self : FirestoreService)
    (collection doc_id : string) (t : list event) (e : exn) :
  get_document self collection doc_id = (t, inl e) ->
  isinstance e NotFound = false /\
  ((_client self = None /\ e = client_not_initialized /\ t = []) \/
   exists c, _client self = Some c /\ doc_get c collection doc_id = inl e /\
             t = [PointRead collection doc_id]).
Proof.
  unfold get_document, client.
  destruct (_client self) as [c|].
  - destruct (doc_get c collection doc_id) as [e'|snapshot] eqn:E;
      [|discriminate].
    destruct (isinstance e' NotFound) eqn:N; [discriminate|].
    intros [= <- <-]. split; [exact N|]. right. exists c. auto.
  - intros [= <- <-]. split; [reflexivity|]. left. auto.
Qed.

Lemma get_document_never_raises_not_found_witness :
  isinstance (Exn PermissionDenied "Missing or insufficient permissions.")
             NotFound = false.
Proof.
  apply (get_document_never_raises_not_found
           (Scenario.service_of Scenario.locked_store) "profiles" "p1"
           [PointRead "profiles" "p1"]
           (Exn PermissionDenied "Missing or insufficient permissions.")).
  reflexivity.
Defined.

(** A store that answers a point read with [NotFound] and one that
    answers with a snapshot that does not exist are the same to the
    caller of [get_document]: [None], after one round trip. *)
Lemma get_document_missing_either_way (self : FirestoreService)
    (c : AsyncClient) (collection doc_id : string) (e : exn) :
  _client self = Some c ->
  doc_get c collection doc_id = inr None \/
  (doc_get c collection doc_id = inl e /\ isinstance e NotFound = true) ->
  get_document self collection doc_id
    = ([PointRead collection doc_id], inr None).
Proof.
  intros Hc H. rewrite (get_document_ready self c _ _ Hc).
  destruct H as [->|[-> ->]]; reflexivity.
Qed.

Lemma get_document_missing_either_way_witness :
  get_document (Scenario.service_of Scenario.store) "orgs" "ghost"
    = ([PointRead "orgs" "ghost"], inr None).
Proof.
  apply (get_document_missing_either_way
           (Scenario.service_of Scenario.store) Scenario.store "orgs" "ghost"
           client_not_initialized eq_refl).
  left. reflexivity.
Defined.

(** X4: once a consistent service is closed, a point read raises the
    [RuntimeError] of the [client] property and makes no round trip. *)
Theorem get_document_after_close (self : FirestoreService)
    (collection doc_id : string) :
  Lifecycle.consistent self ->
  get_document (Lifecycle.close self) collection doc_id
    = ([], inl client_not_initialized).
Proof.
  intros Hc. apply get_document_cold.
  unfold Lifecycle.close. destruct (_is_initialized self) eqn:E; [reflexivity|].
  destruct (_client self) as [c|] eqn:C; [|reflexivity].
  assert (H : _is_initialized self = true) by (apply Hc; congruence).
  congruence.
Qed.

Lemma get_document_after_close_witness :
  get_document (Lifecycle.close (Scenario.service_of Scenario.store))
               "profiles" "p1"
    = ([], inl client_not_initialized).
Proof.
  apply (get_document_after_close (Scenario.service_of Scenario.store)).
  split; [discriminate|reflexivity].
Defined.

Lemma get_firestore_services_held (connect : string -> AsyncClient)
    (shared : FirestoreService) (projects : list string) :
  Lifecycle.get_firestore_services connect (Some shared) projects
    = (Some shared, map (fun _ => shared) projects).
Proof.
  induction projects as [|p rest IH]; [reflexivity|].
  cbn [Lifecycle.get_firestore_services Lifecycle.get_firestore_service map].
  rewrite IH. reflexivity.
Qed.


(** X6: [get_firestore_service] does not initialize a service it already
    holds: after a holder of the shared service has closed it, every
    service that [get_firestore_service] returns, whatever the project,
    has no client, and a point read on it raises the [RuntimeError]
    without a round trip. *)
Theorem get_firestore_service_after_close (connect : string -> AsyncClient)
    (first : string) (later : list string) (collection doc_id : string) :
  let holder := fst (Lifecycle.get_firestore_service connect None first) in
  let closed := Lifecycle.close_shared holder in
  Forall (fun service =>
            client service = inl client_not_initialized /\
            get_document service collection doc_id
              = ([], inl client_not_initialized))
         (snd (Lifecycle.get_firestore_services connect closed later)).
Proof.
  cbn [Lifecycle.get_firestore_service fst Lifecycle.close_shared fmap
       option_fmap option_map].
  rewrite get_firestore_services_held. cbn [snd].
  apply Forall_forall. intros service Hin.
  apply list_elem_of_In, in_map_iff in Hin as (p & <- & _).
  split; reflexivity.
Qed.

(* ===================================================================== *)
(** ** More on the retry loop and on the batched query *)
(* ===================================================================== *)

Section retry_loop.

Variable self : FirestoreService.
Variables (collection field : string) (order_by : option string).
Variable max_retries : Z.
Variables (chunk : list atom) (i : nat).

Local Abbreviation fetch := (_fetch self collection field order_by chunk i).
Local Abbreviation loop :=
  (retrying self collection field order_by max_retries chunk i).

(** The traces of the attempts [n], [n + 1], ..., [n + d]. *)
Local Abbreviation traces_from n d :=
  (concat (map (fun m => trace (fetch m)) (seq n (S d)))).

Lemma retrying_until (k : nat) :
  (forall m, 1 <= m < k ->
     (Z.of_nat m < max_retries)%Z /\
     exists e, result (fetch m) = inl e /\ retry e = true) ->
  match result (fetch k) with
  | inr _ => True
  | inl e => retry e = false \/ (max_retries <= Z.of_nat k)%Z
  end ->
  forall d n b,
    n + d = k -> 1 <= n -> (max_retries <= Z.of_nat (n + b))%Z ->
    loop b n = {| attempt_number := k;
                  calls := traces_from n d;
                  outcome := result (fetch k) |}.
Proof.
  intros Hbefore Hk.
  induction d as [|d IH]; intros n b Hn H1 Hb.
  - assert (n = k) as -> by lia. cbn [seq map concat]. rewrite app_nil_r.
    destruct (fetch k) as [scans [e|docs]] eqn:F; cbn [result trace fst snd] in *.
    + destruct (retry e) eqn:R.
      * destruct Hk as [Hk|Hk]; [discriminate|].
        apply (retrying_stops _ _ _ _ _ _ _ _ _ _ _ F).
        apply stop_when_budget_spent, Hk.
      * apply (retrying_rejects _ _ _ _ _ _ _ _ _ _ _ F R).
    + apply (retrying_returns _ _ _ _ _ _ _ _ _ _ _ F).
  - destruct (Hbefore n) as (Hlt & e & He & R); [lia|].
    destruct (fetch n) as [scans r] eqn:F. cbn [result snd] in He. subst r.
    destruct b as [|b]; [lia|].
    rewrite (retrying_again _ _ _ _ _ _ _ _ _ _ _ F R).
    + rewrite (IH (S n) b) by lia.
      cbn [attempt_number calls outcome]. f_equal.
      change (seq n (S (S d))) with (n :: seq (S n) (S d)).
      cbn [map concat]. rewrite F. reflexivity.
    + unfold stop_after_attempt. apply Z.leb_gt. lia.
Qed.

(** Every attempt makes at most one scan, and that scan is for the chunk
    of the task. *)
Lemma fetch_trace (n : nat) :
  trace (fetch n) = [] \/
  trace (fetch n) = [Scan collection field chunk (ordering order_by)].
Proof.
  unfold _fetch. destruct (client self); [left|right]; reflexivity.
Qed.

Lemma retrying_calls (b : nat) :
  forall n,
    Forall (fun ev => ev = Scan collection field chunk (ordering order_by))
           (calls (loop b n)) /\
    length (calls (loop b n)) + n <= S (attempt_number (loop b n)).
Proof.
  induction b as [|b IH]; intros n;
    destruct (fetch n) as [scans r] eqn:F;
    pose proof (fetch_trace n) as Ht; rewrite F in Ht; cbn [trace fst] in Ht;
    assert (Hscans : Forall (fun ev => ev = Scan collection field chunk
                                             (ordering order_by)) scans
                     /\ length scans <= 1)
      by (destruct Ht as [->| ->]; split; repeat constructor);
    destruct Hscans as [Hall Hlen];
    destruct r as [e|docs].
  - assert (E : loop 0 n = {| attempt_number := n; calls := scans;
                             outcome := inl e |}).
    { simpl. rewrite F.
      destruct (negb (retry e)), (stop_after_attempt max_retries n); reflexivity. }
    rewrite E. cbn [calls attempt_number]. split; [exact Hall|lia].
  - rewrite (retrying_returns _ _ _ _ _ _ _ _ _ _ _ F).
    cbn [calls attempt_number]. split; [exact Hall|lia].
  - destruct (retry e) eqn:R.
    + destruct (stop_after_attempt max_retries n) eqn:St.
      * rewrite (retrying_stops _ _ _ _ _ _ _ _ _ _ _ F St).
        cbn [calls attempt_number]. split; [exact Hall|lia].
      * rewrite (retrying_again _ _ _ _ _ _ _ _ _ _ _ F R St).
        cbn [calls attempt_number]. destruct (IH (S n)) as [IH1 IH2].
        split; [apply Forall_app; split; assumption|].
        rewrite length_app. lia.
    + rewrite (retrying_rejects _ _ _ _ _ _ _ _ _ _ _ F R).
      cbn [calls attempt_number]. split; [exact Hall|lia].
  - rewrite (retrying_returns _ _ _ _ _ _ _ _ _ _ _ F).
    cbn [calls attempt_number]. split; [exact Hall|lia].
Qed.

End retry_loop.

(** X7: the task of a chunk ends at the first attempt that returns, or
    raises something that is not a [GoogleAPIError], or is the
    [max_retries]-th one: when the attempts before attempt [k] all raise a
    [GoogleAPIError] and are not yet the [max_retries]-th, and attempt [k]
    is such an attempt, the task makes exactly [k] attempts, gives what
    attempt [k] gave, be it documents or an exception, and has made the
    scans of the attempts 1 to [k]. *)
Theorem retry_ends_at_first_decisive_attempt (self : FirestoreService)
    (collection field : string) (order_by : option string)
    (max_retries : Z) (chunk : list atom) (i k : nat) :
  1 <= k ->
  (forall m, 1 <= m < k ->
     (Z.of_nat m < max_retries)%Z /\
     exists e, result (_fetch self collection field order_by chunk i m) = inl e /\
               isinstance e GoogleAPIError = true) ->
  match result (_fetch self collection field order_by chunk i k) with
  | inr _ => True
  | inl e => isinstance e GoogleAPIError = false \/ (max_retries <= Z.of_nat k)%Z
  end ->
  let st := fetch_chunk_with_retry self collection field order_by
                                   max_retries chunk i in
  attempt_number st = k /\
  outcome st = result (_fetch self collection field order_by chunk i k) /\
  calls st = concat (map (fun m => trace (_fetch self collection field
                                            order_by chunk i m)) (seq 1 k)).
Proof.
  intros Hk Hbefore Hat st.
  assert (Hst : st = {| attempt_number := k;
                        calls := concat (map (fun m => trace (_fetch self
                                   collection field order_by chunk i m))
                                   (seq 1 (S (k - 1))));
                        outcome := result (_fetch self collection field
                                             order_by chunk i k) |}).
  { apply retrying_until; try lia.
    - intros m Hm. destruct (Hbefore m Hm) as (Hlt & e & He & Hr).
      split; [exact Hlt|]. exists e. split; [exact He|].
      rewrite retry_any_api_error. exact Hr.
    - destruct (result (_fetch self collection field order_by chunk i k))
        as [e|docs]; [|exact I].
      rewrite retry_any_api_error. exact Hat. }
  rewrite Hst. cbn [attempt_number calls outcome].
  replace (S (k - 1)) with k by lia. repeat split.
Qed.

(** The second chunk of the scenario: two quota errors, then the
    documents, at the third attempt. *)
Lemma retry_ends_at_first_decisive_attempt_witness :
  let st := fetch_chunk_with_retry (Scenario.service_of Scenario.store)
              "series" "serie_uuid" (Some "order") 3
              (firstn 10 (skipn 10 Scenario.keys25)) 1 in
  attempt_number st = 3 /\
  outcome st = result (_fetch (Scenario.service_of Scenario.store) "series"
                         "serie_uuid" (Some "order")
                         (firstn 10 (skipn 10 Scenario.keys25)) 1 3) /\
  calls st = concat (map (fun m => trace (_fetch
                       (Scenario.service_of Scenario.store) "series"
                       "serie_uuid" (Some "order")
                       (firstn 10 (skipn 10 Scenario.keys25)) 1 m)) (seq 1 3)).
Proof.
  apply (retry_ends_at_first_decisive_attempt
           (Scenario.service_of Scenario.store) "series" "serie_uuid"
           (Some "order") 3 (firstn 10 (skipn 10 Scenario.keys25)) 1 3).
  - lia.
  - intros m Hm. split; [lia|].
    exists (Exn ResourceExhausted "Quota exceeded.").
    assert (m = 1 \/ m = 2) as [-> | ->] by lia; split; reflexivity.
  - exact I.
Defined.

(** X8: [query_documents_in] makes at most [max(1, max_retries)] scans
    for each of its [ceil(len(values) / 10)] chunks. *)
Theorem query_documents_in_scan_bound (self : FirestoreService)
    (collection field : string) (order_by : option string)
    (max_retries : Z) (finish : nat -> nat) (values : list atom) :
  length (trace (query_documents_in self collection field order_by
                                    max_retries finish values))
  <= Z.to_nat (Z.max 1 max_retries) * chunk_count (length values).
Proof.
  rewrite query_documents_in_trace, <- length_tasks
    with (self := self) (collection := collection) (field := field)
         (order_by := order_by) (max_retries := max_retries).
  assert (Hall : Forall (fun st => length (calls st)
                                   <= Z.to_nat (Z.max 1 max_retries))
                        (tasks self collection field order_by max_retries values)).
  { apply Forall_forall. intros st Hst.
    apply list_elem_of_lookup in Hst as [k Hk].
    rewrite lookup_tasks in Hk.
    destruct (chunks values !! k) as [chunk|]; [|discriminate].
    injection Hk as <-. unfold fetch_chunk_with_retry.
    pose proof (retrying_calls self collection field order_by max_retries
                  chunk k (Z.to_nat max_retries) 1) as [_ H1].
    pose proof (retrying_attempt_bounds self collection field order_by
                  max_retries chunk k (Z.to_nat max_retries) 1) as [_ H2].
    lia. }
  induction Hall as [|st sts Hst _ IH]; [cbn; lia|].
  cbn [map concat length]. rewrite length_app. lia.
Qed.

Lemma task_calls_scan_a_chunk (self : FirestoreService)
    (collection field : string) (order_by : option string)
    (max_retries : Z) (values : list atom) (ev : event) :
  In ev (concat (map calls (tasks self collection field order_by max_retries
                                  values))) ->
  exists k chunk,
    chunks values !! k = Some chunk /\
    ev = Scan collection field chunk (ordering order_by).
Proof.
  rewrite in_concat. intros (evs & Hevs & Hev).
  apply in_map_iff in Hevs as (st & <- & Hst).
  apply list_elem_of_In, list_elem_of_lookup in Hst as [k Hk].
  rewrite lookup_tasks in Hk.
  destruct (chunks values !! k) as [chunk|] eqn:Hchunk; [|discriminate].
  injection Hk as <-. exists k, chunk. split; [exact Hchunk|].
  pose proof (retrying_calls self collection field order_by max_retries
                chunk k (Z.to_nat max_retries) 1) as [H _].
  rewrite Forall_forall in H. apply H, list_elem_of_In, Hev.
Qed.

Lemma chunk_keys_are_values (values : list atom) (k : nat) (chunk : list atom)
    (key : atom) :
  chunks values !! k = Some chunk -> key ∈ chunk -> key ∈ values.
Proof.
  intros Hchunk Hkey. rewrite <- (concat_chunks values).
  apply list_elem_of_In, in_concat. exists chunk.
  split; apply list_elem_of_In; [|exact Hkey].
  apply list_elem_of_lookup. eauto.
Qed.

(** X9: every round trip of [query_documents_in] is a scan of the given
    collection on the given field, with the ordering asked for, for one of
    the chunks of the values: between 1 and 10 keys, all of them among the
    values. *)
Theorem query_documents_in_scans_chunks (self : FirestoreService)
    (collection field : string) (order_by : option string)
    (max_retries : Z) (finish : nat -> nat) (values : list atom) (ev : event) :
  ev ∈ trace (query_documents_in self collection field order_by
                                 max_retries finish values) ->
  exists k chunk,
    chunks values !! k = Some chunk /\
    ev = Scan collection field chunk (ordering order_by) /\
    1 <= length chunk <= 10 /\
    forall key, key ∈ chunk -> key ∈ values.
Proof.
  rewrite query_documents_in_trace, list_elem_of_In. intros Hev.
  destruct (task_calls_scan_a_chunk _ _ _ _ _ _ _ Hev) as (k & chunk & Hchunk & ->).
  exists k, chunk. split; [exact Hchunk|]. split; [reflexivity|].
  split; [apply (chunk_width _ _ _ Hchunk)|].
  intros key. apply (chunk_keys_are_values _ _ _ _ Hchunk).
Qed.

Lemma query_documents_in_scans_chunks_witness :
  exists k chunk,
    chunks Scenario.keys25 !! k = Some chunk /\
    Scan "series" "serie_uuid" (firstn 10 Scenario.keys25) (Some "order")
      = Scan "series" "serie_uuid" chunk (ordering (Some "order")) /\
    1 <= length chunk <= 10 /\
    forall key, key ∈ chunk -> key ∈ Scenario.keys25.
Proof.
  apply (query_documents_in_scans_chunks (Scenario.service_of Scenario.store)
           "series" "serie_uuid" (Some "order") 3 (fun i => i)
           Scenario.keys25).
  vm_compute. left.
Defined.

Section all_or_nothing.

Context {A : Type}.

Lemma all_succeeded (results : list (exn + A)) :
  (forall j e, results !! j <> Some (inl e)) ->
  results = map inr (successes results).
Proof.
  induction results as [|r results IH]; intros H; [reflexivity|].
  destruct r as [e|a].
  - destruct (H 0 e). reflexivity.
  - cbn. f_equal. apply IH. intros j e. apply (H (S j) e).
Qed.

Lemma gather_inr (finish : nat -> nat) (results : list (exn + A))
    (values : list A) :
  gather finish results = inr values -> results = map inr values.
Proof.
  unfold gather.
  destruct (earliest_failure finish 0 results None) as [[t e]|] eqn:E;
    [discriminate|].
  intros [= <-]. apply all_succeeded.
  apply (earliest_failure_none _ _ _ _ E).
Qed.

End all_or_nothing.

(** X10: [query_documents_in] returns documents exactly when the task of
    every chunk does, and what it then returns does not depend on the
    order in which the event loop completes the tasks. *)
Theorem query_documents_in_succeeds_iff_all_chunks_do (self : FirestoreService)
    (collection field : string) (order_by : option string)
    (max_retries : Z) (finish : nat -> nat) (values : list atom) :
  ((exists docs, result (query_documents_in self collection field order_by
                           max_retries finish values) = inr docs) <->
   (forall st, st ∈ tasks self collection field order_by max_retries values ->
               exists docs, outcome st = inr docs)) /\
  (forall (finish' : nat -> nat) (docs : list doc),
     result (query_documents_in self collection field order_by max_retries
                                finish values) = inr docs ->
     result (query_documents_in self collection field order_by max_retries
                                finish' values) = inr docs).
Proof.
  assert (Hinv : forall f docs,
            result (query_documents_in self collection field order_by
                      max_retries f values) = inr docs ->
            exists per_chunk,
              map outcome (tasks self collection field order_by max_retries
                                 values) = map inr per_chunk /\
              docs = concat per_chunk).
  { intros f docs. rewrite query_documents_in_result.
    destruct (gather f _) as [e|per_chunk] eqn:G; [discriminate|].
    intros [= <-]. exists per_chunk. split; [|reflexivity].
    apply (gather_inr _ _ _ G). }
  split; [split|].
  - intros [docs Hdocs] st Hst.
    destruct (Hinv finish docs Hdocs) as (per_chunk & Hmap & _).
    apply list_elem_of_lookup in Hst as [k Hk].
    apply (f_equal (fun l => l !! k)) in Hmap.
    rewrite !list_lookup_fmap, Hk in Hmap.
    destruct (per_chunk !! k) as [d|]; [|discriminate].
    exists d. cbn in Hmap. congruence.
  - intros Hall.
    assert (Hno : forall j e, map outcome (tasks self collection field order_by
                                max_retries values) !! j <> Some (inl e)).
    { intros j e. rewrite list_lookup_fmap.
      destruct (tasks self collection field order_by max_retries values !! j)
        as [st|] eqn:Hst; [|discriminate].
      destruct (Hall st) as [d Hd]; [apply list_elem_of_lookup; eauto|].
      cbn. congruence. }
    rewrite query_documents_in_result, (all_succeeded _ Hno), gather_succeeds.
    eauto.
  - intros finish' docs Hdocs.
    destruct (Hinv finish docs Hdocs) as (per_chunk & Hmap & ->).
    rewrite query_documents_in_result, Hmap, gather_succeeds. reflexivity.
Qed.

Lemma query_documents_in_succeeds_iff_all_chunks_do_witness :
  result (query_documents_in (Scenario.service_of Scenario.store) "series"
            "serie_uuid" (Some "order") 3 (fun i => 2 - i) Scenario.keys25)
    = inr (concat Scenario.per_chunk25).
Proof.
  apply (proj2 (query_documents_in_succeeds_iff_all_chunks_do
                  (Scenario.service_of Scenario.store) "series" "serie_uuid"
                  (Some "order") 3 (fun i => i) Scenario.keys25)).
  vm_compute. reflexivity.
Defined.

(** X11: on a service without client, [query_documents_in] with at least
    one value raises the [RuntimeError] of the [client] property and makes
    no round trip, whatever [max_retries] is. *)
Theorem query_documents_in_without_client (self : FirestoreService)
    (collection field : string) (order_by : option string)
    (max_retries : Z) (finish : nat -> nat) (values : list atom) :
  _client self = None ->
  values <> [] ->
  query_documents_in self collection field order_by max_retries finish values
    = ([], inl client_not_initialized).
Proof.
  intros Hc Hne.
  assert (Htask : forall chunk k,
            fetch_chunk_with_retry self collection field order_by max_retries
                                   chunk k
            = {| attempt_number := 1; calls := [];
                 outcome := inl client_not_initialized |}).
  { intros chunk k. apply retrying_rejects; [|reflexivity].
    unfold _fetch, client. rewrite Hc. reflexivity. }
  assert (Hall : forall st,
            st ∈ tasks self collection field order_by max_retries values ->
            st = {| attempt_number := 1; calls := [];
                    outcome := inl client_not_initialized |}).
  { intros st Hst. apply list_elem_of_lookup in Hst as [k Hk].
    rewrite lookup_tasks in Hk.
    destruct (chunks values !! k) as [chunk|]; [|discriminate].
    injection Hk as <-. apply Htask. }
  apply injective_projections.
  - change (trace (query_documents_in self collection field order_by
                     max_retries finish values) = []).
    rewrite query_documents_in_trace.
    induction (tasks self collection field order_by max_retries values)
      as [|st sts IH]; [reflexivity|].
    cbn [map concat]. rewrite (Hall st) by left. cbn [calls app].
    apply IH. intros st' Hst'. apply Hall. right. exact Hst'.
  - change (result (query_documents_in self collection field order_by
                      max_retries finish values) = inl client_not_initialized).
    rewrite query_documents_in_result.
    destruct (tasks self collection field order_by max_retries values)
      as [|st sts] eqn:Hts.
    + apply (f_equal length) in Hts. rewrite length_tasks in Hts.
      pose proof (chunk_count_ceiling (length values)).
      destruct values; [congruence|]. cbn [length] in *. lia.
    + assert (H0 : map outcome (st :: sts) !! 0
                   = Some (inl client_not_initialized)).
      { cbn. rewrite (Hall st) by left. reflexivity. }
      destruct (gather_fails finish _ _ _ H0) as (j & e' & Hj & ->).
      rewrite list_lookup_fmap in Hj.
      destruct ((st :: sts) !! j) as [st'|] eqn:Hst'; [|discriminate].
      rewrite (Hall st') in Hj by (apply list_elem_of_lookup; eauto).
      cbn in Hj. congruence.
Qed.

Lemma query_documents_in_without_client_witness :
  query_documents_in Scenario.cold_service "series" "serie_uuid"
                     (Some "order") 3 (fun i => i) Scenario.keys25
    = ([], inl client_not_initialized).
Proof.
  apply (query_documents_in_without_client Scenario.cold_service "series"
           "serie_uuid" (Some "order") 3 (fun i => i) Scenario.keys25 eq_refl).
  discriminate.
Defined.

(* ===================================================================== *)
(** ** More on the ACL service *)
(* ===================================================================== *)

Section acl_traces.

Variable self : ACLService.
Variable set_iter : list atom -> list atom.

Lemma get_document_raises_trace (fs : FirestoreService)
    (collection doc_id : string) (t : list event) (e : exn) :
  get_document fs collection doc_id = (t, inl e) ->
  t = [] \/ t = [PointRead collection doc_id].
Proof.
  unfold get_document. destruct (client fs) as [e'|c].
  - intros [= <- _]. left. reflexivity.
  - destruct (doc_get c collection doc_id) as [e'|snapshot];
      [destruct (isinstance e' NotFound)|]; intros [= <- _]; right; reflexivity.
Qed.

Lemma org_series_acl_of_reads (org_uuid : option string) :
  trace (org_series_acl_of self org_uuid) = [] \/
  exists id, trace (org_series_acl_of self org_uuid) = [PointRead "orgs" id].
Proof.
  unfold org_series_acl_of. destruct org_uuid as [id|]; [|left; reflexivity].
  destruct (str_truthy id); [|left; reflexivity].
  destruct (_client (firestore self)) as [c|] eqn:Hc.
  - right. exists id. rewrite (get_document_ready _ c _ _ Hc). unfold bind.
    destruct (doc_get c "orgs" id) as [e|[fields|]].
    + destruct (isinstance e NotFound); reflexivity.
    + destruct (doc_truthy (Some fields)); reflexivity.
    + reflexivity.
  - left. rewrite (get_document_cold _ _ _ Hc). reflexivity.
Qed.

Lemma get_profile_with_acl_reads (profile_uuid : string) :
  trace (get_profile_with_acl self set_iter profile_uuid) = [] \/
  trace (get_profile_with_acl self set_iter profile_uuid)
    = [PointRead "profiles" profile_uuid] \/
  exists id, trace (get_profile_with_acl self set_iter profile_uuid)
             = [PointRead "profiles" profile_uuid; PointRead "orgs" id].
Proof.
  destruct (get_document (firestore self) "profiles" profile_uuid)
    as [t [e|snapshot]] eqn:Hget.
  - rewrite (get_profile_with_acl_store_error self set_iter _ _ _ Hget).
    destruct (get_document_raises_trace _ _ _ _ _ Hget) as [->| ->];
      [left|right; left]; reflexivity.
  - pose proof (get_document_returns _ _ _ _ _ Hget) as ->.
    destruct (doc_truthy snapshot) eqn:Htrue.
    + destruct snapshot as [fields|]; [|discriminate].
      rewrite (get_profile_with_acl_found self set_iter _ _ _ Hget Htrue).
      cbn [trace fst].
      fold (trace (org_series_acl_of self (org_uuid_of fields))).
      destruct (org_series_acl_of_reads (org_uuid_of fields)) as [->|[id ->]].
      * right. left. reflexivity.
      * right. right. exists id. reflexivity.
    + rewrite (get_profile_with_acl_absent self set_iter _ _ _ Hget Htrue).
      right. left. reflexivity.
Qed.

Lemma get_profile_with_acl_no_scan (profile_uuid : string) :
  List.filter is_scan (trace (get_profile_with_acl self set_iter profile_uuid))
    = [].
Proof.
  destruct (get_profile_with_acl_reads profile_uuid) as [->|[->|[id ->]]];
    reflexivity.
Qed.

End acl_traces.

(** X12: [get_profile_with_acl] reads at most two documents and never
    scans: nothing at all when the service has no client, else the profile
    and then at most one organization. *)
Theorem get_profile_with_acl_reads_at_most_two (self : ACLService)
    (set_iter : list atom -> list atom) (profile_uuid : string) :
  (trace (get_profile_with_acl self set_iter profile_uuid) = [] /\
   _client (firestore self) = None) \/
  trace (get_profile_with_acl self set_iter profile_uuid)
    = [PointRead "profiles" profile_uuid] \/
  exists id, trace (get_profile_with_acl self set_iter profile_uuid)
             = [PointRead "profiles" profile_uuid; PointRead "orgs" id].
Proof.
  destruct (get_profile_with_acl_reads self set_iter profile_uuid)
    as [H|H]; [|right; exact H].
  destruct (_client (firestore self)) as [c|] eqn:Hc; [|left; auto].
  exfalso.
  assert (Hget := get_document_ready (firestore self) c "profiles"
                    profile_uuid Hc).
  destruct (doc_get c "profiles" profile_uuid) as [e|snapshot].
  - destruct (isinstance e NotFound).
    + rewrite (get_profile_with_acl_absent self set_iter _ _ _ Hget eq_refl) in H.
      discriminate.
    + rewrite (get_profile_with_acl_store_error self set_iter _ _ _ Hget) in H.
      discriminate.
  - destruct (doc_truthy snapshot) eqn:Htrue.
    + destruct snapshot as [fields|]; [|discriminate].
      rewrite (get_profile_with_acl_found self set_iter _ _ _ Hget Htrue) in H.
      discriminate.
    + rewrite (get_profile_with_acl_absent self set_iter _ _ _ Hget Htrue) in H.
      discriminate.
Qed.

(** X13: a profile whose [series_acl] field holds a scalar that is not a
    string ([None], a boolean or a number) makes [get_profile_with_acl]
    raise a [TypeError] once its organization is read, whatever the
    organization grants; only a missing field counts as no grant. *)
Theorem scalar_series_acl_raises_type_error (self : ACLService)
    (set_iter : list atom -> list atom) (profile_uuid : string)
    (fields : doc) (t : list event) (a : atom) (org_series_acl : pyval) :
  get_document (firestore self) "profiles" profile_uuid
    = (t, inr (Some fields)) ->
  fields !! "series_acl" = Some (PAtom a) ->
  (forall s, a <> AStr s) ->
  result (org_series_acl_of self (org_uuid_of fields)) = inr org_series_acl ->
  exists e, result (get_profile_with_acl self set_iter profile_uuid) = inl e /\
            exn_cls e = TypeError.
Proof.
  intros Hget Hfield Hnot Horg.
  assert (Htrue : doc_truthy (Some fields) = true).
  { cbn [doc_truthy]. apply negb_true_iff, Nat.eqb_neq. intros Hsize.
    apply map_size_empty_iff in Hsize. rewrite Hsize, lookup_empty in Hfield.
    discriminate. }
  rewrite (get_profile_with_acl_found self set_iter _ _ _ Hget Htrue).
  cbn [result snd].
  fold (result (org_series_acl_of self (org_uuid_of fields))).
  rewrite Horg. unfold dict_get_default. rewrite Hfield. cbn [default].
  unfold merge_series_acl.
  destruct org_series_acl as [[|b|z|s]|xs|xs|xs], a as [|b'|z'|s'];
    try (destruct (Hnot s' eq_refl)); cbn; eauto.
Qed.

(** Profile [p5] of the store below holds [None] as its grants. *)
Lemma scalar_series_acl_raises_type_error_witness :
  exists e,
    result (get_profile_with_acl
              {| firestore := Scenario.service_of
                   {| doc_get := fun _ _ => inr (Some {[ "series_acl" := PNone ]});
                      query_stream := fun _ _ _ _ _ _ => inr [] |} |}
              Scenario.insertion_order "p5") = inl e /\
    exn_cls e = TypeError.
Proof.
  apply (scalar_series_acl_raises_type_error _ Scenario.insertion_order "p5"
           {[ "series_acl" := PNone ]} [PointRead "profiles" "p5"]
           ANone (PList [])).
  - reflexivity.
  - reflexivity.
  - discriminate.
  - reflexivity.
Defined.

Section listing.

Variable self : ACLService.
Variable set_iter : list atom -> list atom.
Variable finish : nat -> nat.

Local Abbreviation resolve := (get_profile_with_acl self set_iter).
Local Abbreviation listing := (get_series_for_profile self set_iter finish).
Local Abbreviation series_of :=
  (query_documents_in (firestore self) "series" "serie_uuid" (Some "order") 3
                      finish).

(** The listing is the resolution followed, for a non-empty access list,
    by the batched query for it. *)
Lemma get_series_for_profile_unfold (profile_uuid : string) :
  listing profile_uuid =
    match result (resolve profile_uuid) with
    | inl e => (trace (resolve profile_uuid), inl e)
    | inr (_, []) => (trace (resolve profile_uuid), inr [])
    | inr (_, series_acl) =>
        (trace (resolve profile_uuid) ++ trace (series_of series_acl),
         result (series_of series_acl))
    end.
Proof.
  unfold get_series_for_profile.
  destruct (resolve profile_uuid) as [t [e|[profile [|x series_acl]]]];
    cbn [bind ret trace result fst snd]; rewrite ?app_nil_r; reflexivity.
Qed.

(** A point read that returns was made through a client. *)
Lemma get_document_returns_ready (fs : FirestoreService)
    (collection doc_id : string) (t : list event) (snapshot : option doc) :
  get_document fs collection doc_id = (t, inr snapshot) ->
  exists c, _client fs = Some c.
Proof.
  unfold get_document, client. destruct (_client fs) as [c|]; [eauto|discriminate].
Qed.

Lemma resolve_succeeds_ready (profile_uuid : string) (profile : doc)
    (series_acl : list atom) :
  result (resolve profile_uuid) = inr (profile, series_acl) ->
  exists c, _client (firestore self) = Some c.
Proof.
  destruct (get_document (firestore self) "profiles" profile_uuid)
    as [t [e|snapshot]] eqn:Hget.
  - rewrite (get_profile_with_acl_store_error self set_iter _ _ _ Hget).
    discriminate.
  - intros _. apply (get_document_returns_ready _ _ _ _ _ Hget).
Qed.

(** With a client, the task of a chunk scans that chunk at least once. *)
Lemma first_attempt_scans (fs : FirestoreService) (c : AsyncClient)
    (collection field : string) (order_by : option string) (max_retries : Z)
    (chunk : list atom) (i : nat) :
  _client fs = Some c ->
  In (Scan collection field chunk (ordering order_by))
     (calls (fetch_chunk_with_retry fs collection field order_by max_retries
                                    chunk i)).
Proof.
  intros Hc. unfold fetch_chunk_with_retry.
  destruct (Z.to_nat max_retries) as [|b]; cbn [retrying];
    unfold _fetch, client; rewrite Hc;
    destruct (query_stream c collection field chunk (ordering order_by) i 1)
      as [e|docs]; try (left; reflexivity);
    destruct (negb (retry e)); try (left; reflexivity);
    destruct (stop_after_attempt max_retries 1); left; reflexivity.
Qed.

End listing.

(** X14: when the access list cannot be resolved, [get_series_for_profile]
    raises what [get_profile_with_acl] raised, and when the access list is
    empty it returns the empty list; in both cases it makes the round
    trips of [get_profile_with_acl] and no scan. *)
Theorem get_series_for_profile_short_circuits (self : ACLService)
    (set_iter : list atom -> list atom) (finish : nat -> nat)
    (profile_uuid : string) (r : exn + list doc) :
  (exists e, result (get_profile_with_acl self set_iter profile_uuid) = inl e
             /\ r = inl e) \/
  (exists profile,
      result (get_profile_with_acl self set_iter profile_uuid)
        = inr (profile, []) /\ r = inr []) ->
  get_series_for_profile self set_iter finish profile_uuid
    = (trace (get_profile_with_acl self set_iter profile_uuid), r) /\
  List.filter is_scan
    (trace (get_series_for_profile self set_iter finish profile_uuid)) = [].
Proof.
  intros H.
  assert (E : get_series_for_profile self set_iter finish profile_uuid
              = (trace (get_profile_with_acl self set_iter profile_uuid), r)).
  { rewrite get_series_for_profile_unfold.
    destruct H as [(e & -> & ->)|(profile & -> & ->)]; reflexivity. }
  split; [exact E|]. rewrite E. apply get_profile_with_acl_no_scan.
Qed.

Lemma get_series_for_profile_short_circuits_witness :
  get_series_for_profile Scenario.acl Scenario.insertion_order (fun i => i)
                         "nobody"
    = (trace (get_profile_with_acl Scenario.acl Scenario.insertion_order
                                   "nobody"),
       inl (profile_not_found "nobody")) /\
  List.filter is_scan
    (trace (get_series_for_profile Scenario.acl Scenario.insertion_order
                                   (fun i => i) "nobody")) = [].
Proof.
  apply (get_series_for_profile_short_circuits Scenario.acl
           Scenario.insertion_order (fun i => i) "nobody").
  left. exists (profile_not_found "nobody"). split; reflexivity.
Defined.

(** X15: every scan that [get_series_for_profile] makes is a scan of the
    collection [series] on [serie_uuid], ordered by [order], for at most 10
    keys that all belong to the access list of the profile: no series
    outside the access list is ever asked for. *)
Theorem get_series_for_profile_scans_only_granted (self : ACLService)
    (set_iter : list atom -> list atom) (finish : nat -> nat)
    (profile_uuid : string) (profile : doc) (series_acl : list atom)
    (ev : event) :
  result (get_profile_with_acl self set_iter profile_uuid)
    = inr (profile, series_acl) ->
  ev ∈ trace (get_series_for_profile self set_iter finish profile_uuid) ->
  is_scan ev = true ->
  exists chunk,
    ev = Scan "series" "serie_uuid" chunk (Some "order") /\
    1 <= length chunk <= 10 /\
    forall key, key ∈ chunk -> key ∈ series_acl.
Proof.
  intros Hres Hev Hscan.
  assert (Hnot : ~ In ev (trace (get_profile_with_acl self set_iter
                                   profile_uuid))).
  { intros Hin.
    assert (H : In ev (List.filter is_scan
                         (trace (get_profile_with_acl self set_iter
                                                      profile_uuid))))
      by (apply filter_In; auto).
    rewrite get_profile_with_acl_no_scan in H. destruct H. }
  rewrite get_series_for_profile_unfold, Hres in Hev.
  apply list_elem_of_In in Hev.
  destruct series_acl as [|x rest]; [contradiction|].
  cbn [trace fst] in Hev. apply in_app_or in Hev as [Hev|Hev]; [contradiction|].
  fold (trace (query_documents_in (firestore self) "series" "serie_uuid"
                 (Some "order") 3 finish (x :: rest))) in Hev.
  rewrite query_documents_in_trace in Hev.
  destruct (task_calls_scan_a_chunk _ _ _ _ _ _ _ Hev)
    as (k & chunk & Hchunk & ->).
  exists chunk. split; [reflexivity|].
  split; [apply (chunk_width _ _ _ Hchunk)|].
  intros key. apply (chunk_keys_are_values _ _ _ _ Hchunk).
Qed.

Lemma get_series_for_profile_scans_only_granted_witness :
  exists chunk,
    Scan "series" "serie_uuid" [AStr "s2"; AStr "s3"; AStr "s1"] (Some "order")
      = Scan "series" "serie_uuid" chunk (Some "order") /\
    1 <= length chunk <= 10 /\
    forall key, key ∈ chunk -> key ∈ [AStr "s2"; AStr "s3"; AStr "s1"].
Proof.
  apply (get_series_for_profile_scans_only_granted Scenario.acl
           Scenario.insertion_order (fun i => i) "p1" Scenario.p1).
  - vm_compute. reflexivity.
  - vm_compute. right. right. left.
  - reflexivity.
Defined.

(** X16: what [validate_serie_access] grants, [get_series_for_profile]
    asks the store for: when the check of a series for a profile returns
    true, the listing for that profile makes a scan that holds the
    identifier of the series among its keys. *)
Theorem granted_series_is_scanned (self : ACLService)
    (set_iter : list atom -> list atom) (finish : nat -> nat)
    (profile_uuid serie_uuid : string) :
  result (validate_serie_access self set_iter profile_uuid serie_uuid)
    = inr true ->
  exists ev,
    ev ∈ trace (get_series_for_profile self set_iter finish profile_uuid) /\
    is_scan ev = true /\ AStr serie_uuid ∈ scanned_keys ev.
Proof.
  unfold validate_serie_access.
  destruct (get_profile_with_acl self set_iter profile_uuid)
    as [t [e|[profile series_acl]]] eqn:Hres;
    cbn [bind ret result snd]; [discriminate|].
  rewrite py_in_str. intros [= Hin]. apply bool_decide_eq_true in Hin.
  assert (Hr : result (get_profile_with_acl self set_iter profile_uuid)
               = inr (profile, series_acl)) by (rewrite Hres; reflexivity).
  destruct (resolve_succeeds_ready self set_iter _ _ _ Hr) as [c Hc].
  rewrite <- (concat_chunks series_acl) in Hin.
  apply list_elem_of_In, in_concat in Hin as (chunk & Hchunk & Hkey).
  apply list_elem_of_In, list_elem_of_lookup in Hchunk as [k Hk].
  exists (Scan "series" "serie_uuid" chunk (Some "order")).
  split; [|split; [reflexivity|apply list_elem_of_In, Hkey]].
  rewrite get_series_for_profile_unfold, Hr.
  destruct series_acl as [|x rest];
    [apply lookup_chunks in Hk as [_ Hlt]; cbn in Hlt; lia|].
  cbn [trace fst]. apply list_elem_of_In, in_or_app. right.
  fold (trace (query_documents_in (firestore self) "series" "serie_uuid"
                 (Some "order") 3 finish (x :: rest))).
  rewrite query_documents_in_trace. apply in_concat.
  exists (calls (fetch_chunk_with_retry (firestore self) "series" "serie_uuid"
                   (Some "order") 3 chunk k)).
  split.
  - apply in_map, list_elem_of_In, list_elem_of_lookup. exists k.
    rewrite lookup_tasks, Hk. reflexivity.
  - apply (first_attempt_scans _ c _ _ (Some "order") _ _ _ Hc).
Qed.

Lemma granted_series_is_scanned_witness :
  exists ev,
    ev ∈ trace (get_series_for_profile Scenario.acl Scenario.insertion_order
                                       (fun i => i) "p1") /\
    is_scan ev = true /\ AStr "s3" ∈ scanned_keys ev.
Proof.
  apply (granted_series_is_scanned Scenario.acl Scenario.insertion_order
           (fun i => i) "p1" "s3").
  vm_compute. reflexivity.
Defined.

(* ===================================================================== *)
(** ** Identifiers, keys and request fields *)
(* ===================================================================== *)

Section trimmed_values.

Lemma length_string_of_chars (cs : list ascii) :
  String.length (string_of_list_ascii cs) = length cs.
Proof. induction cs as [|c cs IH]; [reflexivity|]. simpl. rewrite IH. reflexivity. Qed.

Lemma length_chars_of_string (s : string) :
  length (list_ascii_of_string s) = String.length s.
Proof. induction s as [|c s IH]; [reflexivity|]. simpl. rewrite IH. reflexivity. Qed.

Lemma length_lstrip_chars (cs : list ascii) :
  length (lstrip_chars cs) <= length cs.
Proof.
  induction cs as [|c cs IH]; [reflexivity|]. simpl.
  destruct (isspace c); simpl; lia.
Qed.

(** Trimming never lengthens. *)
Lemma length_strip (s : string) : String.length (strip s) <= String.length s.
Proof.
  unfold strip, rstrip_chars.
  rewrite length_string_of_chars, length_rev.
  etransitivity; [apply length_lstrip_chars|].
  rewrite length_rev. etransitivity; [apply length_lstrip_chars|].
  rewrite length_chars_of_string. reflexivity.
Qed.

Lemma str_truthy_length (s : string) :
  str_truthy s = negb (String.length s =? 0)%nat.
Proof. destruct s; reflexivity. Qed.

(** What the normalization of an organization field returns was trimmed. *)
Lemma first_non_empty_item_stripped (items : list atom) (r : string) :
  first_non_empty_item items = Some r -> exists s, r = strip s.
Proof.
  induction items as [|item rest IH]; [discriminate|].
  cbn [first_non_empty_item].
  destruct item as [|b|z|v]; auto.
  - destruct (truthy (ABool b)); auto.
    destruct (str_truthy (strip (py_str (ABool b)))); auto.
    intros [= <-]. eauto.
  - destruct (truthy (AInt z)); auto.
    destruct (str_truthy (strip (py_str (AInt z)))); auto.
    intros [= <-]. eauto.
  - destruct (str_truthy (strip v)); auto.
    intros [= <-]. eauto.
Qed.

Lemma first_non_empty_to_str_stripped (value : pyval) (r : string) :
  _first_non_empty_to_str value = Some r -> exists s, r = strip s.
Proof.
  destruct value as [a|items|items|items];
    try apply first_non_empty_item_stripped.
  unfold _first_non_empty_to_str. destruct a as [|b|z|v]; [discriminate| | |].
  - destruct (truthy (ABool b)); [|discriminate].
    destruct (str_truthy (strip (py_str (ABool b)))); [|discriminate].
    intros [= <-]. eauto.
  - destruct (truthy (AInt z)); [|discriminate].
    destruct (str_truthy (strip (py_str (AInt z)))); [|discriminate].
    intros [= <-]. eauto.
  - destruct (str_truthy (strip v)); [|discriminate].
    intros [= <-]. eauto.
Qed.

End trimmed_values.

(** X17: the identifier that [_first_non_empty_to_str] returns, whatever
    the shape of the value, is not empty, has no white space at either
    end, and is its own normal form: given back as a single string it is
    returned unchanged. *)
Theorem first_non_empty_to_str_normal_form (value : pyval) (r : string) :
  _first_non_empty_to_str value = Some r ->
  r <> EmptyString /\ trimmed r /\ _first_non_empty_to_str (PStr r) = Some r.
Proof.
  intros H.
  pose proof (first_non_empty_to_str_non_empty _ _ H) as Hne.
  destruct (first_non_empty_to_str_stripped _ _ H) as [s ->].
  split; [apply str_truthy_true, Hne|]. split; [apply strip_trimmed|].
  unfold _first_non_empty_to_str, PStr. rewrite strip_idempotent, Hne.
  reflexivity.
Qed.

Lemma first_non_empty_to_str_normal_form_witness :
  "42" <> EmptyString /\ trimmed "42" /\
  _first_non_empty_to_str (PStr "42") = Some "42".
Proof.
  apply (first_non_empty_to_str_normal_form
           (PTuple [ABool false; AInt 0; AInt 42; AStr "c"]) "42").
  reflexivity.
Defined.

(** X18: [validate_api_key] accepts a header exactly when it is present
    and not empty and, once trimmed, equal to the configured key; it then
    returns the configured key. In every other case, so always when no key
    is configured, it raises [InvalidAPIKeyException], with status 401. *)
Theorem validate_api_key_accepts_the_configured_key_only
    (x_api_key API_KEY : option string) :
  (forall key, Auth.validate_api_key x_api_key API_KEY = inr key <->
               exists header, x_api_key = Some header /\
                              header <> EmptyString /\
                              API_KEY = Some (strip header) /\
                              key = strip header) /\
  (forall e, Auth.validate_api_key x_api_key API_KEY = inl e ->
             e = Auth.InvalidAPIKeyException /\ Auth.status_code e = 401) /\
  (API_KEY = None ->
   Auth.validate_api_key x_api_key API_KEY = inl Auth.InvalidAPIKeyException).
Proof.
  unfold Auth.validate_api_key. split; [|split].
  - intros key. split.
    + destruct x_api_key as [header|]; [|discriminate].
      destruct (str_truthy header) eqn:Hne; cbn [negb]; [|discriminate].
      case_bool_decide as Hk; [discriminate|].
      intros [= <-]. exists header.
      split; [reflexivity|]. split; [apply str_truthy_true, Hne|].
      split; [|reflexivity].
      destruct (decide (Some (strip header) = API_KEY)); [congruence|].
      contradiction.
    + intros (header & -> & Hne & -> & ->).
      apply str_truthy_true in Hne. rewrite Hne. cbn [negb].
      case_bool_decide as Hk; [congruence|reflexivity].
  - intros e. destruct x_api_key as [header|].
    + destruct (negb (str_truthy header)); [intros [= <-]; auto|].
      case_bool_decide; [intros [= <-]; auto|discriminate].
    + intros [= <-]. auto.
  - intros ->. destruct x_api_key as [header|]; [|reflexivity].
    destruct (negb (str_truthy header)); [reflexivity|].
    case_bool_decide; [reflexivity|congruence].
Qed.

Lemma validate_api_key_accepts_the_configured_key_only_witness :
  Auth.validate_api_key (Some " secret ") None = inl Auth.InvalidAPIKeyException.
Proof.
  apply (validate_api_key_accepts_the_configured_key_only
           (Some " secret ") None).
  reflexivity.
Defined.

(** X19: the configured key is compared as it is, while the header is
    trimmed first: when the configured key starts or ends with white
    space, no header is accepted. *)
Theorem untrimmed_configured_key_rejects_all (x_api_key : option string)
    (configured : string) :
  ~ trimmed configured ->
  Auth.validate_api_key x_api_key (Some configured)
    = inl Auth.InvalidAPIKeyException.
Proof.
  intros Hnot. unfold Auth.validate_api_key.
  destruct x_api_key as [header|]; [|reflexivity].
  destruct (negb (str_truthy header)); [reflexivity|].
  case_bool_decide as Hk; [reflexivity|].
  exfalso. apply Hnot.
  destruct (decide (Some (strip header) = Some configured)) as [E|E];
    [|contradiction].
  injection E as <-. apply strip_trimmed.
Qed.

Lemma untrimmed_configured_key_rejects_all_witness :
  Auth.validate_api_key (Some "secret ") (Some "secret ")
    = inl Auth.InvalidAPIKeyException.
Proof.
  apply (untrimmed_configured_key_rejects_all (Some "secret ") "secret ").
  unfold trimmed. vm_compute. discriminate.
Defined.

Lemma validate_uuid_accepts (name w : string) :
  strip w <> EmptyString -> Requests.validate_uuid name w = inr (strip w).
Proof.
  intros Hw. unfold Requests.validate_uuid.
  apply str_truthy_true in Hw. rewrite (strip_non_empty _ Hw).
  rewrite str_truthy_length in Hw. apply negb_true_iff in Hw. rewrite Hw.
  reflexivity.
Qed.

Lemma validate_uuid_rejects (name w : string) :
  strip w = EmptyString ->
  exists msg, Requests.validate_uuid name w = inl (Requests.ValueError msg).
Proof.
  intros Hw. unfold Requests.validate_uuid. rewrite Hw.
  cbn [String.length Nat.eqb]. rewrite orb_true_r. eauto.
Qed.

(** X20: the field validators of [profile_uuid] and [serie_uuid] reject
    the empty string and every string of white space only, with a
    [ValueError], and return every other value trimmed; what they return
    is not empty, has no white space at either end, and is returned
    unchanged when validated again. *)
Theorem validate_uuid_trims (name v : string) :
  (Requests.validate_uuid name v = inr (strip v) /\ strip v <> EmptyString \/
   (exists msg, Requests.validate_uuid name v = inl (Requests.ValueError msg))
   /\ strip v = EmptyString) /\
  (forall r, Requests.validate_uuid name v = inr r ->
             r <> EmptyString /\ trimmed r /\
             Requests.validate_uuid name r = inr r).
Proof.
  pose proof (validate_uuid_accepts name) as Hok.
  pose proof (validate_uuid_rejects name) as Hbad.
  split.
  - destruct (decide (strip v = EmptyString)) as [E|E]; [right|left]; auto.
  - intros r Hr.
    destruct (decide (strip v = EmptyString)) as [E|E].
    + destruct (Hbad v E) as [msg Hmsg]. congruence.
    + rewrite (Hok v E) in Hr. injection Hr as <-.
      split; [exact E|]. split; [apply strip_trimmed|].
      rewrite <- (strip_idempotent v) at 2. apply Hok.
      rewrite strip_idempotent. exact E.
Qed.

Lemma validate_uuid_trims_witness :
  "a1b2c3d4e5" <> EmptyString /\ trimmed "a1b2c3d4e5" /\
  Requests.validate_uuid "profile_uuid" "a1b2c3d4e5" = inr "a1b2c3d4e5".
Proof.
  apply (proj2 (validate_uuid_trims "profile_uuid" "  a1b2c3d4e5 ")).
  reflexivity.
Defined.

(** X21: a [profile_uuid] or [serie_uuid] field accepts a value only if
    it is 10 to 100 characters long as received, and then holds that value
    trimmed: not empty, without white space at either end, at most 100
    characters long, and possibly shorter than 10, the bounds being
    checked before the trimming. *)
Theorem uuid_field_bounds (name v r : string) :
  Requests.constrained_field 10 100 (Requests.validate_uuid name) v = inr r ->
  10 <= String.length v <= 100 /\
  r = strip v /\ trimmed r /\ 1 <= String.length r <= 100.
Proof.
  unfold Requests.constrained_field.
  destruct (String.length v <? 10)%nat eqn:Hmin; [discriminate|].
  destruct (100 <? String.length v)%nat eqn:Hmax; [discriminate|].
  apply Nat.ltb_ge in Hmin, Hmax. intros Hr.
  destruct (decide (strip v = EmptyString)) as [E|E].
  { destruct (validate_uuid_rejects name v E) as [msg Hmsg]. congruence. }
  rewrite (validate_uuid_accepts name v E) in Hr. injection Hr as <-.
  pose proof (length_strip v).
  split; [lia|]. split; [reflexivity|]. split; [apply strip_trimmed|].
  destruct (strip v); [congruence|]. cbn [String.length] in *. lia.
Qed.

(** Ten characters as received, one once trimmed. *)
Lemma uuid_field_bounds_witness :
  10 <= String.length "a         " <= 100 /\
  "a" = strip "a         " /\ trimmed "a" /\ 1 <= String.length "a" <= 100.
Proof.
  apply (uuid_field_bounds "profile_uuid" "a         " "a").
  reflexivity.
Defined.

(** X22: for grant lists of any scalars, the access list that
    [get_profile_with_acl] returns holds no two elements that are equal in
    Python's sense (so [True] and [1], which are equal, are kept once),
    and an element is in it, in the sense of [in], exactly when it is in
    the grants of the organization or in those of the profile. *)
Theorem access_list_of_scalars (self : ACLService)
    (set_iter : list atom -> list atom) (profile_uuid : string)
    (fields : doc) (t : list event) (O D : list atom) :
  (forall l, set_iter l ≡ₚ l) ->
  get_document (firestore self) "profiles" profile_uuid
    = (t, inr (Some fields)) ->
  doc_truthy (Some fields) = true ->
  result (org_series_acl_of self (org_uuid_of fields)) = inr (PList O) ->
  dict_get_default fields "series_acl" (PList []) = PList D ->
  exists series_acl,
    result (get_profile_with_acl self set_iter profile_uuid)
      = inr (fields, series_acl) /\
    py_distinct series_acl = true /\
    forall x, py_in x series_acl = py_in x O || py_in x D.
Proof.
  intros Hperm Hget Htrue Horg Hown.
  rewrite (get_profile_with_acl_found self set_iter _ _ _ Hget Htrue).
  cbn [result snd]. fold (result (org_series_acl_of self (org_uuid_of fields))).
  rewrite Horg, Hown.
  destruct (merge_series_acl_lists set_iter O D Hperm) as (acl & Hacl & _ & Hin).
  rewrite Hacl. exists acl. split; [reflexivity|].
  split; [apply (merge_series_acl_distinct set_iter O D acl Hperm Hacl)|exact Hin].
Qed.

(** A profile that holds [1] and ["s1"], in an organization that grants
    [True] and ["s1"]: two elements are left. *)
Lemma access_list_of_scalars_witness :
  exists series_acl,
    result (get_profile_with_acl
              {| firestore := Scenario.service_of
                   {| doc_get := fun collection _ =>
                        if String.eqb collection "profiles"
                        then inr (Some {[ "org_uuid" := PStr "o";
                                          "series_acl" := PList [AInt 1; AStr "s1"] ]})
                        else inr (Some {[ "series_acl" := PList [ABool true; AStr "s1"] ]});
                      query_stream := fun _ _ _ _ _ _ => inr [] |} |}
              Scenario.reverse_order "p") =
      inr ({[ "org_uuid" := PStr "o";
              "series_acl" := PList [AInt 1; AStr "s1"] ]}, series_acl) /\
    py_distinct series_acl = true /\
    forall x, py_in x series_acl
              = py_in x [ABool true; AStr "s1"] || py_in x [AInt 1; AStr "s1"].
Proof.
  apply (access_list_of_scalars _ Scenario.reverse_order "p" _
           [PointRead "profiles" "p"]).
  - intros l. symmetry. apply Permutation_rev.
  - reflexivity.
  - vm_compute. reflexivity.
  - vm_compute. reflexivity.
  - vm_compute. reflexivity.
Defined.
